(** * cardinal: query samplers for active learning

    A shallow embedding of [cardinal/base.py], [cardinal/batch.py] and of the
    [AdaptiveQuerySampler] of [plot_digits_metrics.py], with the properties of
    the query-sampling subsystem stated and settled on it; and of the
    labeling loop of the example scripts, which calls the samplers.

    Conventions of the embedding.
    - numpy's float64 values are idealised as exact rationals [Q]; equality of
      computed numbers is therefore [Qeq] ([==]).  Comparisons and [argmax]
      are executable.  Nothing is stated here that depends on how float64
      rounds.
    - [np.argsort] is called with its default kind, which is not stable: the
      order it gives to equal entries is not specified.  It is a parameter of
      [ScoredQuerySampler], of which only what numpy documents is assumed
      ([sorts_ascending]).
    - a numpy 1-D array is a [list]; a feature matrix is a list of rows.
    - numpy arrays are mutable objects: they live in a store ([heap]) and
      Python variables hold references ([loc]) to them wherever the code
      writes into an array.
    - a Python exception is a value [Raise e] of the [result] type; code that
      both mutates and raises runs in the monad [M].
    - scikit-learn's distance primitives and numpy's random generator are not
      part of the repository: the metric and the generator are parameters. *)

From Stdlib Require Import QArith Qminmax Qabs Lqa Sorted.
From stdpp Require Import gmap strings list.

Set Default Proof Using "Type".

(** ** Python exceptions and the store *)

Inductive exn : Set :=
| ValueError
| IndexError
| TypeError
| AttributeError
| NotImplementedError
| NullReference.

Inductive result (A : Type) : Type :=
| Ok (a : A)
| Raise (e : exn).
Arguments Ok {A} a.
Arguments Raise {A} e.

Global Instance result_ret : MRet result := fun A a => Ok a.
Global Instance result_bind : MBind result := fun A B k m =>
  match m with
  | Ok a => k a
  | Raise e => Raise e
  end.

Definition loc := positive.
Abbreviation heap := (gmap loc (list Q)).

(** State and exception monad: an exception leaves the store as it was when
    it was raised. *)
Definition M (A : Type) : Type := heap → result A * heap.

Global Instance M_ret : MRet M := fun A a h => (Ok a, h).
Global Instance M_bind : MBind M := fun A B k m h =>
  match m h with
  | (Ok a, h') => k a h'
  | (Raise e, h') => (Raise e, h')
  end.

Definition raise {A} (e : exn) : M A := fun h => (Raise e, h).
Definition lift {A} (r : result A) : M A := fun h => (r, h).

(** Dereference an array variable. *)
Definition load (l : loc) : M (list Q) := fun h =>
  match h !! l with
  | Some a => (Ok a, h)
  | None => (Raise NullReference, h)
  end.

(** [a.copy()], and any other allocation of a new array. *)
Definition alloc (a : list Q) : M loc := fun h =>
  let l := fresh (dom h) in (Ok l, <[l := a]> h).

(** [a[i] = v] on the array object referenced by [l]. *)
Definition setitem (l : loc) (i : nat) (v : Q) : M unit := fun h =>
  match h !! l with
  | Some a =>
      if decide (i < length a)%nat then (Ok tt, <[l := <[i := v]> a]> h)
      else (Raise IndexError, h)
  | None => (Raise NullReference, h)
  end.

(** ** numpy primitives *)

Definition row := list Q.
Definition matrix := list row.

(** [np.arange(n)] *)
Definition arange (n : nat) : list nat := seq 0 n.

(** [a[mask]] for a boolean [mask] of the same length as [a]. *)
Fixpoint compress {A} (mask : list bool) (a : list A) : list A :=
  match mask, a with
  | b :: mask', x :: a' =>
      if b then x :: compress mask' a' else compress mask' a'
  | _, _ => []
  end.

(** numpy refuses a boolean index whose length is not the array's. *)
Definition bool_index {A} (mask : list bool) (a : list A) : result (list A) :=
  if decide (length mask = length a) then Ok (compress mask a)
  else Raise IndexError.

(** [a[i]] for an in-range non-negative integer [i]. *)
Definition getitem {A} (a : list A) (i : nat) : result A :=
  match a !! i with
  | Some x => Ok x
  | None => Raise IndexError
  end.

(** [np.argmax]: the position of the first occurrence of the maximum. *)
Fixpoint argmax_from (best : Q) (ibest : nat) (i : nat) (a : list Q) : nat :=
  match a with
  | [] => ibest
  | x :: a' =>
      if Qle_bool x best then argmax_from best ibest (S i) a'
      else argmax_from x i (S i) a'
  end.

Definition argmax (a : list Q) : result nat :=
  match a with
  | [] => Raise ValueError
  | x :: a' => Ok (argmax_from x 0 1 a')
  end.

(** [np.max([a, b], axis=0)] *)
Definition maximum (a b : list Q) : list Q := zip_with Qmax a b.

(** [np.sum] *)
Definition sum (a : list Q) : Q := foldr Qplus 0%Q a.

(** [a[start:]] with Python's slice rules: a negative [start] counts from the
    end and is clipped at the beginning of the array. *)
Definition slice_from {A} (start : Z) (a : list A) : list A :=
  let n := Z.of_nat (length a) in
  let s := if (start <? 0)%Z then Z.max (n + start) 0 else Z.min start n in
  drop (Z.to_nat s) a.

(** The score of sample [i] in a score vector. *)
Definition score_of (scores : list Q) (i : nat) : Q :=
  default 0%Q (scores !! i).

(** What numpy documents of [np.argsort] with its default kind: the result
    holds every index once, and the entries read in that order ascend.
    Nothing is promised of the order of equal entries. *)
Definition sorts_ascending (argsort : list Q → list nat) : Prop :=
  ∀ a, argsort a ≡ₚ seq 0 (length a) ∧
       StronglySorted (λ i j, (score_of a i <= score_of a j)%Q) (argsort a).

(** One function that sorts ascending: insertion sort, which keeps equal
    entries in index order.  It is the argsort of the examples. *)
Fixpoint insert_sorted (key : nat → Q) (i : nat) (l : list nat) : list nat :=
  match l with
  | [] => [i]
  | j :: l' =>
      if Qle_bool (key i) (key j) then i :: j :: l'
      else j :: insert_sorted key i l'
  end.

Definition argsort_from (key : nat → Q) (indices : list nat) : list nat :=
  foldr (insert_sorted key) [] indices.

Definition insertion_argsort (a : list Q) : list nat :=
  argsort_from (fun i => default 0%Q (a !! i)) (arange (length a)).

(** ** [cardinal/batch.py]: RankedBatchSampler *)

Module RankedBatchSampler.
Section Sampler.

(** The distance named by [self.metric]. *)
Variable metric : row → row → Q.

(** The least of the distances from [a] to the rows [b :: B]. *)
Definition min_distance (a b : row) (B : matrix) : Q :=
  foldl Qmin (metric a b) (map (metric a) B).

(** [pairwise_distances_argmin_min(A, B)[1]]: for every row of [A] the
    distance to its nearest row of [B].  scikit-learn validates both
    arguments and refuses an array with no row. *)
Definition pairwise_distances_argmin_min (A B : matrix) : result (list Q) :=
  match A, B with
  | [], _ => Raise ValueError
  | _, [] => Raise ValueError
  | _, b :: B' =>
      Ok (map (fun a => min_distance a b B') A)
  end.

(** [pairwise_distances(A, x[None])[:, 0]] *)
Definition pairwise_distances_to (A : matrix) (x : row) : result (list Q) :=
  match A with
  | [] => Raise ValueError
  | _ => Ok (map (fun a => metric a x) A)
  end.

(** [1 / (1 + d)] *)
Definition similarity (d : Q) : Q := (1 / (1 + d))%Q.

(** [samples_weights > -.5] *)
Definition is_unlabeled (w : Q) : bool := negb (Qle_bool w (-1 # 2)).

(** [mask.sum()] *)
Definition mask_sum (mask : list bool) : Z :=
  foldr (fun b n => ((if b : bool then 1 else 0) + n)%Z) 0%Z mask.

(** The local variables that the greedy loop updates. *)
Record frame : Type := Frame {
  samples_weights : loc;
  similarity_scores : list Q;
  n_unlabeled : Z;
  selected_samples : list nat
}.

(** The local variables that stay fixed once the loop is entered. *)
Record context : Type := Context {
  X : matrix;
  n_samples : nat;
  index : list nat;
  unlabeled_mask : list bool
}.

(** [alpha = n_unlabeled / n_samples] *)
Definition alpha (c : context) (f : frame) : Q :=
  (inject_Z (n_unlabeled f) / inject_Z (Z.of_nat (n_samples c)))%Q.

(** [alpha * (1 - similarity_scores) + (1 - alpha) * samples_weights[mask]] *)
Definition scores (c : context) (f : frame) (w : list Q) : list Q :=
  zip_with (fun s wi => (alpha c f * (1 - s) + (1 - alpha c f) * wi)%Q)
    (similarity_scores f) (compress (unlabeled_mask c) w).

(** One pass through the body of [for _ in range(self.batch_size)]. *)
Definition iteration (c : context) (f : frame) : M frame :=
  w ← load (samples_weights f);
  k ← lift (argmax (scores c f w));
  idx_furthest ← lift (getitem (compress (unlabeled_mask c) (index c)) k);
  x ← lift (getitem (X c) idx_furthest);
  d ← lift (pairwise_distances_to (compress (unlabeled_mask c) (X c)) x);
  let sim := map similarity d in
  _ ← setitem (samples_weights f) idx_furthest 0%Q;
  mret {| samples_weights := samples_weights f;
          similarity_scores := maximum (similarity_scores f) sim;
          n_unlabeled := n_unlabeled f - 1;
          selected_samples := selected_samples f ++ [idx_furthest] |}.

Fixpoint run_iterations (k : nat) (c : context) (f : frame) : M frame :=
  match k with
  | O => mret f
  | S k' => f' ← iteration c f; run_iterations k' c f'
  end.

(** Everything [select_samples] does before it enters the loop. *)
Definition setup (X : matrix) (samples_weights : loc) : M (context * frame) :=
  let n_samples := length X in
  let index := arange n_samples in
  w ← load samples_weights;
  let unlabeled_mask := map is_unlabeled w in
  let n_unlabeled := mask_sum unlabeled_mask in
  samples_weights ← alloc w;
  Xu ← lift (bool_index unlabeled_mask X);
  Xl ← lift (bool_index (map negb unlabeled_mask) X);
  d ← lift (pairwise_distances_argmin_min Xu Xl);
  mret ({| X := X; n_samples := n_samples; index := index;
           unlabeled_mask := unlabeled_mask |},
        {| samples_weights := samples_weights;
           similarity_scores := map similarity d;
           n_unlabeled := n_unlabeled;
           selected_samples := [] |}).

(** The local variables after [k] passes through the loop body. *)
Definition after_picks (k : nat) (X : matrix) (samples_weights : loc)
  : M (context * frame) :=
  cf ← setup X samples_weights;
  f ← run_iterations k cf.1 cf.2;
  mret (cf.1, f).

(** [RankedBatchSampler.select_samples(X, samples_weights)] with
    [self.batch_size = batch_size]. *)
Definition select_samples (batch_size : nat) (X : matrix)
    (samples_weights : loc) : M (list nat) :=
  cf ← after_picks batch_size X samples_weights;
  mret (selected_samples cf.2).



(** What holds of the loop's variables whenever the loop body is entered:
    the private copy of the weights is allocated and has one weight per
    row, and the similarity cache has one entry per unlabeled row, of
    which there is at least one. *)
Definition loop_invariant (c : context) (f : frame) (h : heap) : Prop :=
  ∃ w, h !! samples_weights f = Some w ∧
       length w = length (X c) ∧
       length (unlabeled_mask c) = length (X c) ∧
       index c = arange (length (X c)) ∧
       n_samples c = length (X c) ∧
       length (similarity_scores f)
         = length (compress (unlabeled_mask c) (X c)) ∧
       compress (unlabeled_mask c) (X c) ≠ [].

(** The number of rows whose weight is above [-0.5]. *)
Fixpoint count_eligible (w : list Q) : nat :=
  match w with
  | [] => 0
  | wi :: w' => (if is_unlabeled wi then 1 else 0) + count_eligible w'
  end.


(** Position [p] holds the first of the largest entries of [a]: no entry
    exceeds it and every entry before it is smaller. *)
Definition first_best (a : list Q) (p : nat) : Prop :=
  ∃ y, a !! p = Some y ∧
       (∀ q x, a !! q = Some x → (x <= y)%Q) ∧
       (∀ q x, (q < p)%nat → a !! q = Some x → (x < y)%Q).

(** Row [i] is eligible: it exists and the mask keeps it. *)
Definition eligible (c : context) (i : nat) : Prop :=
  (i < length (X c))%nat ∧ unlabeled_mask c !! i = Some true.

(** Two runs of the loop body agree when their variables agree and their
    weight arrays have the same content, wherever those arrays live. *)
Definition same_variables (f1 f2 : frame) (h1 h2 : heap) : Prop :=
  similarity_scores f1 = similarity_scores f2 ∧
  n_unlabeled f1 = n_unlabeled f2 ∧
  selected_samples f1 = selected_samples f2 ∧
  h1 !! samples_weights f1 = h2 !! samples_weights f2.

Definition same_outcome {A} (R : A → A → heap → heap → Prop)
    (r1 r2 : result A * heap) : Prop :=
  match r1.1, r2.1 with
  | Ok a1, Ok a2 => R a1 a2 r1.2 r2.2
  | Raise e1, Raise e2 => e1 = e2
  | _, _ => False
  end.

End Sampler.
End RankedBatchSampler.

(** ** [cardinal/base.py] *)

Definition labels := list Z.

(** An integer or a boolean numpy array used as an index. *)
Inductive index_array : Type :=
| IntIndex (l : list Z)
| BoolIndex (l : list bool).

(** One integer index into an array of [n] elements: negative values count
    from the end, anything outside [-n, n) is refused. *)
Definition normalize_index (n : nat) (i : Z) : result nat :=
  if decide (0 ≤ i < Z.of_nat n)%Z then Ok (Z.to_nat i)
  else if decide (- Z.of_nat n ≤ i < 0)%Z then Ok (Z.to_nat (Z.of_nat n + i))
  else Raise IndexError.

(** [a[idx]] for an integer array [idx]. *)
Fixpoint take {A} (a : list A) (idx : list Z) : result (list A) :=
  match idx with
  | [] => Ok []
  | i :: idx' =>
      k ← normalize_index (length a) i;
      x ← getitem a k;
      r ← take a idx';
      mret (x :: r)
  end.

(** [a[idx]] for either kind of index array. *)
Definition fancy_index {A} (a : list A) (idx : index_array) : result (list A) :=
  match idx with
  | IntIndex l => take a l
  | BoolIndex m => bool_index m a
  end.

(** The interface of a query sampler, over the type [S] of the object's
    attributes.  A method returns its result (or the exception it raised)
    and the attributes it leaves behind.  The second argument of [fit] is
    [None] when the caller gives none.  [predict] is not declared by the
    base class, but [ChainQuerySampler] calls it on its members: it is
    [None] for a class that has no such method, and looking it up then
    raises [AttributeError]. *)
Class QuerySampler (S : Type) : Type := {
  fit : S → matrix → option labels → result unit * S;
  select_samples : S → matrix → result (list Z) * S;
  predict : option (S → matrix → result index_array * S)
}.

(** [BaseQuerySampler] itself. *)
Module BaseQuerySampler.
Record t : Type := { batch_size : nat }.

Global Instance sampler : QuerySampler t := {|
  fit self X y := (Ok tt, self);
  select_samples self X := (Raise NotImplementedError, self);
  predict := None
|}.
End BaseQuerySampler.

Module ScoredQuerySampler.
Section Sampler.

(** The state of numpy's [RandomState], and its method
    [choice(a, size, replace=False, p)]. *)
Variable rng : Type.
Variable choice : rng → list nat → nat → list Q → result (list nat) * rng.

(** The abstract method [score_samples], supplied by a subclass. *)
Variable score_samples : matrix → result (list Q).

(** [np.argsort] with its default kind. *)
Variable argsort : list Q → list nat.

Record t : Type := {
  batch_size : nat;
  strategy : string;
  random_state : rng;
  sample_scores_ : option (list Q)
}.

Definition set_sample_scores_ (self : t) (v : list Q) : t :=
  {| batch_size := batch_size self; strategy := strategy self;
     random_state := random_state self; sample_scores_ := Some v |}.

Definition set_random_state (self : t) (g : rng) : t :=
  {| batch_size := batch_size self; strategy := strategy self;
     random_state := g; sample_scores_ := sample_scores_ self |}.

(** [sample_scores / np.sum(sample_scores)]; the quotients are exact here,
    where numpy rounds them (and gives nan for a sum of 0). *)
Definition proportions (sample_scores : list Q) : list Q :=
  map (fun x => (x / sum sample_scores)%Q) sample_scores.

(** [np.argsort(sample_scores)[-batch_size:]] *)
Definition top (batch_size : nat) (sample_scores : list Q) : list nat :=
  slice_from (- Z.of_nat batch_size) (argsort sample_scores).

Definition select_samples (self : t) (X : matrix) : result (list nat) * t :=
  match score_samples X with
  | Raise e => (Raise e, self)
  | Ok sample_scores =>
      let self := set_sample_scores_ self sample_scores in
      if String.eqb (strategy self) "top" then
        (Ok (top (batch_size self) sample_scores), self)
      else if String.eqb (strategy self) "linear_choice" then
        let '(index, g) :=
          choice (random_state self) (arange (length X)) (batch_size self)
            (proportions sample_scores) in
        (index, set_random_state self g)
      else if String.eqb (strategy self) "squared_choice" then
        let sample_scores := map (fun x => (x ^ 2)%Q) sample_scores in
        let '(index, g) :=
          choice (random_state self) (arange (length X)) (batch_size self)
            (proportions sample_scores) in
        (index, set_random_state self g)
      else (Raise ValueError, self)
  end.

End Sampler.
End ScoredQuerySampler.

Module ChainQuerySampler.

(** A member of [sampler_list]: an object of any class that has the
    sampler methods. *)
Record member : Type := Member {
  attrs : Type;
  methods : QuerySampler attrs;
  self : attrs
}.

Definition with_self (m : member) (s : attrs m) : member :=
  {| attrs := attrs m; methods := methods m; self := s |}.

(** The members' methods, as calls on the packed object. *)
Definition member_fit (m : member) (X : matrix) (y : option labels)
  : result unit * member :=
  let '(r, s) := @fit _ (methods m) (self m) X y in (r, with_self m s).

Definition member_select_samples (m : member) (X : matrix)
  : result (list Z) * member :=
  let '(r, s) := @select_samples _ (methods m) (self m) X in
  (r, with_self m s).

(** Looking up [sampler.predict]: [None] when the class has no such
    method. *)
Definition member_predict (m : member)
  : option (matrix → result index_array * member) :=
  match @predict _ (methods m) with
  | None => None
  | Some method =>
      Some (λ X, let '(r, s) := method (self m) X in (r, with_self m s))
  end.

(** One pass through [for sampler in self.sampler_list[1:]].  Python looks
    [sampler.predict] up before it evaluates the argument [X[selected]]. *)
Definition chain_step (X : matrix) (sampler : member) (selected : list Z)
  : result (list Z) * member :=
  match member_fit sampler X None with
  | (Raise e, sampler) => (Raise e, sampler)
  | (Ok _, sampler) =>
      match member_predict sampler with
      | None => (Raise AttributeError, sampler)
      | Some sampler_predict =>
          match take X selected with
          | Raise e => (Raise e, sampler)
          | Ok X_selected =>
              match sampler_predict X_selected with
              | (Raise e, sampler) => (Raise e, sampler)
              | (Ok new_selected, sampler) =>
                  (fancy_index selected new_selected, sampler)
              end
          end
      end
  end.

(** The loop; it stops at the first exception and leaves the remaining
    members untouched. *)
Fixpoint chain_loop (X : matrix) (rest : list member) (selected : list Z)
  : result (list Z) * list member :=
  match rest with
  | [] => (Ok selected, [])
  | sampler :: rest' =>
      match chain_step X sampler selected with
      | (Raise e, sampler') => (Raise e, sampler' :: rest')
      | (Ok selected', sampler') =>
          let '(r, rest'') := chain_loop X rest' selected' in
          (r, sampler' :: rest'')
      end
  end.

Definition fit (sampler_list : list member) (X : matrix) (y : option labels)
  : result unit * list member :=
  match sampler_list with
  | [] => (Raise IndexError, [])
  | first :: rest =>
      let '(r, first') := member_fit first X y in (r, first' :: rest)
  end.

Definition select_samples (sampler_list : list member) (X : matrix)
  : result (list Z) * list member :=
  match sampler_list with
  | [] => (Raise IndexError, [])
  | first :: rest =>
      match member_select_samples first X with
      | (Raise e, first') => (Raise e, first' :: rest)
      | (Ok selected, first') =>
          let '(r, rest') := chain_loop X rest selected in
          (r, first' :: rest')
      end
  end.

(** One sampler filters a selection: it is fitted on all of [X], without
    labels; it then predicts on the rows of [X] that the selection names,
    and what it answers is used to index the selection. *)
Definition filters (X : matrix) (before after : member)
    (selected selected' : list Z) : Prop :=
  ∃ fitted fitted_predict X_selected new_selected,
    member_fit before X None = (Ok tt, fitted) ∧
    member_predict fitted = Some fitted_predict ∧
    take X selected = Ok X_selected ∧
    fitted_predict X_selected = (Ok new_selected, after) ∧
    fancy_index selected new_selected = Ok selected'.

(** The samplers [rest] filter a selection one after the other, each the
    selection that the one before it left, and end in [picks]. *)
Inductive filtered (X : matrix)
  : list member → list Z → list member → list Z → Prop :=
| filtered_nil selected : filtered X [] selected [] selected
| filtered_cons before after rest rest' selected selected' picks :
    filters X before after selected selected' →
    filtered X rest selected' rest' picks →
    filtered X (before :: rest) selected (after :: rest') picks.

End ChainQuerySampler.

(** ** [plot_digits_metrics.py]: AdaptiveQuerySampler *)

Module AdaptiveQuerySampler.
Section Sampler.

Context {E P : Type} `{!QuerySampler E} `{!QuerySampler P}.

Record t : Type := {
  exploration_sampler : E;
  exploitation_sampler : P;
  _X_train_size : option Z
}.

(** [__init__] *)
Definition init (exploration : E) (exploitation : P) : t :=
  {| exploration_sampler := exploration;
     exploitation_sampler := exploitation;
     _X_train_size := None |}.

Definition fit (self : t) (X_train : matrix) (y_train : labels)
  : result unit * t :=
  let size := Some (Z.of_nat (length X_train)) in
  match fit (exploration_sampler self) X_train (Some y_train) with
  | (Raise e, explo) =>
      (Raise e, {| exploration_sampler := explo;
                   exploitation_sampler := exploitation_sampler self;
                   _X_train_size := size |})
  | (Ok _, explo) =>
      let '(r, exploit) :=
        fit (exploitation_sampler self) X_train (Some y_train) in
      (r, {| exploration_sampler := explo;
             exploitation_sampler := exploit;
             _X_train_size := size |})
  end.

Definition select_samples (self : t) (X : matrix) : result (list Z) * t :=
  match _X_train_size self with
  | None => (Raise TypeError, self)
  | Some size =>
      if (size <=? 50)%Z then
        let '(r, explo) := select_samples (exploration_sampler self) X in
        (r, {| exploration_sampler := explo;
               exploitation_sampler := exploitation_sampler self;
               _X_train_size := _X_train_size self |})
      else
        let '(r, exploit) := select_samples (exploitation_sampler self) X in
        (r, {| exploration_sampler := exploration_sampler self;
               exploitation_sampler := exploit;
               _X_train_size := _X_train_size self |})
  end.

End Sampler.
End AdaptiveQuerySampler.

(** ** Concrete inputs *)

(** The Euclidean distance between rows with a single feature. *)
Definition euclidean_1d (a b : row) : Q :=
  match a, b with
  | [x], [y] => Qabs (x - y)
  | _, _ => 0%Q
  end.


(** The scenario of the specification: six points on a line, the first three
    labeled. *)
Definition X6 : matrix := [[0]; [1]; [2]; [10]; [11]; [12]]%Q.
Definition w6 : list Q := [-1; -1; -1; 1#2; 1#2; 1#2]%Q.

(** Three points on a line, two of them at the same place, no prior weight
    on the unlabeled ones. *)
Definition X3 : matrix := [[0]; [1]; [1]]%Q.
Definition w3 : list Q := [-1; 0; 0]%Q.

(** Two points, one labeled and one not. *)
Definition X2 : matrix := [[0]; [1]]%Q.
Definition w2 : list Q := [-1; 1#2]%Q.

(** A store that holds one array. *)
Definition store1 (w : list Q) : heap := {[1%positive := w]}.

(** The value of [alpha] computed in pass [k] of the loop, [k] counted from
    0. *)
Definition alpha_at (metric : row → row → Q) (k : nat) (X : matrix)
    (samples_weights : loc) (h : heap) : result Q :=
  cf ← (RankedBatchSampler.after_picks metric k X samples_weights h).1;
  mret (RankedBatchSampler.alpha cf.1 cf.2).

(** A sampler that always selects row 0. *)
Module FirstRowSampler.
Record t : Type := { batch_size : nat }.

Global Instance sampler : QuerySampler t := {|
  fit self X y := (Ok tt, self);
  select_samples self X := (Ok [0%Z], self);
  predict := None
|}.
End FirstRowSampler.

(** A sampler that remembers how many rows it was last fitted on and whose
    [predict] keeps every row it is shown. *)
Module RecordingSampler.
Record t : Type := { fitted_rows : option nat }.

Global Instance sampler : QuerySampler t := {|
  fit self X y := (Ok tt, {| fitted_rows := Some (length X) |});
  select_samples self X := (Ok (map Z.of_nat (arange (length X))), self);
  predict := Some (λ self X, (Ok (BoolIndex (map (λ _, true) X)), self))
|}.
End RecordingSampler.

Definition first_row_member : ChainQuerySampler.member :=
  ChainQuerySampler.Member FirstRowSampler.t _
    {| FirstRowSampler.batch_size := 1 |}.

Definition recording_member (n : option nat) : ChainQuerySampler.member :=
  ChainQuerySampler.Member RecordingSampler.t _
    {| RecordingSampler.fitted_rows := n |}.

(** A scoring method for [ScoredQuerySampler]: the sum of a row's features;
    and a generator whose [choice] takes the first [size] candidates. *)
Definition score_row_sum (X : matrix) : result (list Q) := Ok (map sum X).

Definition choice_first (g : unit) (a : list nat) (size : nat) (p : list Q)
  : result (list nat) * unit :=
  (Ok (firstn size a), g).

(** Sample [i] ranks below sample [j]: its score is smaller, or the scores
    are equal and [i] is the lower index. *)
Definition ranks_below (scores : list Q) (i j : nat) : Prop :=
  (score_of scores i < score_of scores j)%Q ∨
  ((score_of scores i == score_of scores j)%Q ∧ (i < j)%nat).

(** A [ScoredQuerySampler] with the scoring and the generator above. *)
Definition scored_sampler (batch_size : nat) (strategy : string)
  : ScoredQuerySampler.t unit :=
  {| ScoredQuerySampler.batch_size := batch_size;
     ScoredQuerySampler.strategy := strategy;
     ScoredQuerySampler.random_state := tt;
     ScoredQuerySampler.sample_scores_ := None |}.

(** Two samples with the same score. *)
Definition X_tie : matrix := [[1]; [1]]%Q.

(** An adaptive sampler over the two samplers above, before any [fit]. *)
Definition adaptive_example
  : @AdaptiveQuerySampler.t FirstRowSampler.t RecordingSampler.t :=
  AdaptiveQuerySampler.init
    {| FirstRowSampler.batch_size := 1 |}
    {| RecordingSampler.fitted_rows := None |}.

(** ** The samplers of [cardinal/base.py] as chain members *)

Definition result_map {A B} (g : A → B) (r : result A) : result B :=
  match r with
  | Ok a => Ok (g a)
  | Raise e => Raise e
  end.

(** The methods a [ScoredQuerySampler] answers to: [fit] is the one it
    inherits from [BaseQuerySampler], [select_samples] is its own, and it has
    no [predict]. *)
Global Instance ScoredQuerySampler_sampler (rng : Type)
    (choice : rng → list nat → nat → list Q → result (list nat) * rng)
    (score_samples : matrix → result (list Q))
    (argsort : list Q → list nat)
  : QuerySampler (ScoredQuerySampler.t rng) := {|
  fit self X y := (Ok tt, self);
  select_samples self X :=
    let '(r, self') :=
      ScoredQuerySampler.select_samples rng choice score_samples argsort
        self X in
    (result_map (map Z.of_nat) r, self');
  predict := None
|}.

Definition scored_member (batch_size : nat) (strategy : string)
  : ChainQuerySampler.member :=
  ChainQuerySampler.Member (ScoredQuerySampler.t unit)
    (ScoredQuerySampler_sampler unit choice_first score_row_sum
       insertion_argsort)
    (scored_sampler batch_size strategy).

(** A member's class has no [predict] method. *)
Definition lacks_predict (m : ChainQuerySampler.member) : Prop :=
  @predict _ (ChainQuerySampler.methods m) = None.

(** A member's [predict] answers with boolean masks only. *)
Definition predicts_masks (m : ChainQuerySampler.member) : Prop :=
  ∀ method (s s' : ChainQuerySampler.attrs m) (X : matrix) r,
    @predict _ (ChainQuerySampler.methods m) = Some method →
    method s X = (Ok r, s') →
    ∃ mask, r = BoolIndex mask.

(** ** The labeling loop of the example scripts

    The last three statements of the loop body in [plot_digits_metrics.py]
    and [plot_clustering.py]:
    [sampler.fit(X_train[mask], y_train[mask])],
    [selected = sampler.select_samples(X_train[~mask])],
    [mask[indices[~mask][selected]] = True]. *)

Module ActiveLearning.
Section Loop.
Context {S : Type} `{!QuerySampler S}.

(** The number of labeled samples, [mask.sum()]. *)
Fixpoint count_true (mask : list bool) : nat :=
  match mask with
  | [] => 0
  | b :: mask' => (if b then 1 else 0) + count_true mask'
  end.

(** Sample [i] is the unlabeled sample number [k], counted from 0: it is
    not labeled and [k] samples before it are not. *)
Definition kth_unlabeled (mask : list bool) (k i : nat) : Prop :=
  mask !! i = Some false ∧ count_true (map negb (firstn i mask)) = k.

(** An index [s] that a sampler returns for [X_train[~mask]] names sample
    [i] of [X_train]: once numpy has wrapped a negative [s], it is the
    number of an unlabeled sample, and [i] is that sample. *)
Definition names_sample (mask : list bool) (s : Z) (i : nat) : Prop :=
  ∃ k, normalize_index (count_true (map negb mask)) s = Ok k ∧
       kth_unlabeled mask k i.

(** [mask[idx] = True] for an integer array [idx] of positions in range. *)
Definition set_true (mask : list bool) (idx : list nat) : list bool :=
  foldl (λ m i, <[i := true]> m) mask idx.

(** [mask[indices[~mask][selected]] = True] *)
Definition mark_selected (indices : list nat) (mask : list bool)
    (selected : list Z) : result (list bool) :=
  pool ← bool_index (map negb mask) indices;
  picked ← take pool selected;
  mret (set_true mask picked).

Definition labeling_step (X_train : matrix) (y_train : labels) (sampler : S)
    (mask : list bool) : result (list bool) * S :=
  let indices := arange (length X_train) in
  match bool_index mask X_train with
  | Raise e => (Raise e, sampler)
  | Ok X_labeled =>
      match bool_index mask y_train with
      | Raise e => (Raise e, sampler)
      | Ok y_labeled =>
          match fit sampler X_labeled (Some y_labeled) with
          | (Raise e, sampler) => (Raise e, sampler)
          | (Ok _, sampler) =>
              match bool_index (map negb mask) X_train with
              | Raise e => (Raise e, sampler)
              | Ok X_unlabeled =>
                  match select_samples sampler X_unlabeled with
                  | (Raise e, sampler) => (Raise e, sampler)
                  | (Ok selected, sampler) =>
                      (mark_selected indices mask selected, sampler)
                  end
              end
          end
      end
  end.

End Loop.
End ActiveLearning.

(** A mask over the three rows of [X3] with the first row labeled, and the
    labels of those rows. *)
Definition mask3 : list bool := [true; false; false].
Definition y3 : labels := [0; 1; 1]%Z.

(** ** [AdaptiveQuerySampler] as a sampler of the labeling loop *)

(** The methods an [AdaptiveQuerySampler] answers to.  Its [fit] declares
    [y_train] without a default: a call that gives no labels raises
    [TypeError] before the body runs.  It has no [predict]. *)
Global Instance AdaptiveQuerySampler_sampler {E P : Type}
    `{!QuerySampler E} `{!QuerySampler P}
  : QuerySampler (@AdaptiveQuerySampler.t E P) := {|
  fit self X_train y :=
    match y with
    | Some y_train => AdaptiveQuerySampler.fit self X_train y_train
    | None => (Raise TypeError, self)
    end;
  select_samples := AdaptiveQuerySampler.select_samples;
  predict := None
|}.

(** Fifty-two samples of which all but the last are labeled. *)
Definition X52 : matrix := replicate 52 [0%Q].
Definition y52 : labels := replicate 52 0%Z.
Definition mask52 : list bool := replicate 51 true ++ [false].
(** * Properties *)

(** ** The monad and the numpy primitives *)

Lemma compress_length {A} (mask : list bool) (a : list A) :
  length mask = length a →
  Z.of_nat (length (compress mask a)) = RankedBatchSampler.mask_sum mask.
Proof.
  revert a. induction mask as [|b mask IH]; intros [|x a] Hlen; simplify_eq/=;
    [done|].
  specialize (IH a Hlen). destruct b; simpl; lia.
Qed.

Lemma compress_length_eq {A B} (mask : list bool) (a : list A) (b : list B) :
  length mask = length a → length mask = length b →
  length (compress mask a) = length (compress mask b).
Proof.
  intros Ha Hb. apply Nat2Z.inj. by rewrite !compress_length.
Qed.

(** The [k]-th element kept by a mask is the element at the [k]-th kept
    position. *)
Lemma compress_lookup_seq {A} (mask : list bool) (a : list A) s k i :
  length mask = length a →
  compress mask (seq s (length a)) !! k = Some i →
  ∃ j, i = (s + j)%nat ∧ mask !! j = Some true ∧
       compress mask a !! k = a !! j.
Proof.
  revert a s k. induction mask as [|b mask IH]; intros [|x a] s k Hlen Hk;
    simplify_eq/=.
  destruct b.
  - destruct k as [|k]; simplify_eq/=.
    + exists 0%nat. split; [lia|done].
    + destruct (IH a (S s) k Hlen Hk) as (j & -> & Hj & Hc).
      exists (S j). split; [lia|done].
  - destruct (IH a (S s) k Hlen Hk) as (j & -> & Hj & Hc).
    exists (S j). split; [lia|done].
Qed.

Lemma argmax_from_bound best ibest i a :
  (ibest < i)%nat →
  (argmax_from best ibest i a < i + length a)%nat.
Proof.
  revert best ibest i. induction a as [|x a IH]; intros best ibest i Hi; simpl.
  - lia.
  - destruct (Qle_bool x best).
    + specialize (IH best ibest (S i)). lia.
    + specialize (IH x i (S i)). lia.
Qed.

Lemma argmax_Ok (a : list Q) :
  a ≠ [] → ∃ k, argmax a = Ok k ∧ (k < length a)%nat.
Proof.
  destruct a as [|x a]; [done|]. intros _. eexists. split; [done|].
  pose proof (argmax_from_bound x 0 1 a). simpl. lia.
Qed.

(** ** RankedBatchSampler: the loop *)

Section RankedBatchSampler_loop.
Import RankedBatchSampler.
Variable metric : row → row → Q.

Local Ltac run :=
  unfold mbind, mret, M_bind, M_ret, lift, load, setitem, alloc; simpl.

(** The body of the loop never fails once the loop is entered; it appends
    an eligible row to the selection and writes only into the private copy
    of the weights. *)
Lemma iteration_spec c f h :
  loop_invariant c f h →
  ∃ w k idx x,
    h !! samples_weights f = Some w ∧
    argmax (scores c f w) = Ok k ∧
    compress (unlabeled_mask c) (index c) !! k = Some idx ∧
    eligible c idx ∧
    X c !! idx = Some x ∧
    compress (unlabeled_mask c) (X c) !! k = Some x ∧
    iteration metric c f h =
      (Ok {| samples_weights := samples_weights f;
             similarity_scores :=
               maximum (similarity_scores f)
                 (map similarity
                    (map (λ a, metric a x)
                       (compress (unlabeled_mask c) (X c))));
             n_unlabeled := n_unlabeled f - 1;
             selected_samples := selected_samples f ++ [idx] |},
       <[samples_weights f := <[idx := 0%Q]> w]> h).
Proof.
  intros (w & Hw & Hlw & Hlm & Hidx & Hn & Hls & Hne).
  assert (Hsc : scores c f w ≠ []).
  { intros Hnil. apply (f_equal length) in Hnil.
    unfold scores in Hnil. rewrite length_zip_with in Hnil.
    rewrite Hls in Hnil.
    rewrite (compress_length_eq _ w (X c)) in Hnil by lia.
    destruct (compress (unlabeled_mask c) (X c)); simpl in *; [done|lia]. }
  destruct (argmax_Ok _ Hsc) as (k & Hk & Hklt).
  assert (Hk' : (k < length (compress (unlabeled_mask c) (index c)))%nat).
  { unfold scores in Hklt. rewrite length_zip_with in Hklt.
    rewrite Hidx. unfold arange.
    rewrite (compress_length_eq _ _ (X c)); [lia|by rewrite length_seq|done]. }
  destruct (lookup_lt_is_Some_2 _ _ Hk') as [idx Hi].
  pose proof Hi as Hi'. rewrite Hidx in Hi'. unfold arange in Hi'.
  destruct (compress_lookup_seq _ (X c) 0 k idx Hlm Hi') as (j & -> & Hj & Hc).
  simpl in *.
  assert (Hjlt : (j < length (X c))%nat).
  { rewrite <- Hlm. by eapply lookup_lt_Some. }
  destruct (lookup_lt_is_Some_2 _ _ Hjlt) as [x Hx].
  exists w, k, j, x. split_and!; try done.
  - by rewrite Hc.
  - unfold iteration. run. rewrite Hw. simpl. rewrite Hk. simpl.
    unfold getitem. rewrite Hi. simpl. rewrite Hx. simpl.
    unfold pairwise_distances_to.
    destruct (compress (unlabeled_mask c) (X c)) eqn:Hcx; [done|].
    simpl. rewrite Hw. rewrite decide_True by lia. done.
Qed.

Lemma iteration_step c f h :
  loop_invariant c f h →
  ∃ f' h' idx,
    iteration metric c f h = (Ok f', h') ∧
    loop_invariant c f' h' ∧
    samples_weights f' = samples_weights f ∧
    n_unlabeled f' = (n_unlabeled f - 1)%Z ∧
    eligible c idx ∧
    selected_samples f' = selected_samples f ++ [idx] ∧
    (∀ l, l ≠ samples_weights f → h' !! l = h !! l).
Proof.
  intros Hinv.
  destruct (iteration_spec c f h Hinv)
    as (w & k & idx & x & Hw & Hk & Hi & Hel & Hx & Hcx & Hit).
  destruct Hinv as (w' & Hw' & Hlw & Hlm & Hidx & Hn & Hls & Hne).
  assert (w' = w) as -> by congruence.
  eexists _, _, idx. split; [exact Hit|]. simpl. split_and!; try done.
  - exists (<[idx := 0%Q]> w). simpl. rewrite lookup_insert_eq.
    split_and!; try done.
    + by rewrite length_insert.
    + unfold maximum. rewrite length_zip_with, !length_map. lia.
  - intros l Hl. by rewrite lookup_insert_ne.
Qed.

Lemma run_iterations_spec k c f h :
  loop_invariant c f h →
  ∃ f' h' picks,
    run_iterations metric k c f h = (Ok f', h') ∧
    loop_invariant c f' h' ∧
    samples_weights f' = samples_weights f ∧
    n_unlabeled f' = (n_unlabeled f - Z.of_nat k)%Z ∧
    length picks = k ∧
    Forall (eligible c) picks ∧
    selected_samples f' = selected_samples f ++ picks ∧
    (∀ l, l ≠ samples_weights f → h' !! l = h !! l).
Proof.
  revert f h. induction k as [|k IH]; intros f h Hinv.
  - exists f, h, []. simpl. rewrite app_nil_r.
    split_and!; try done. lia.
  - destruct (iteration_step c f h Hinv)
      as (f1 & h1 & idx & Hit & Hinv1 & Hsw & Hnu & Hel & Hsel & Hfr).
    destruct (IH f1 h1 Hinv1)
      as (f2 & h2 & picks & Hrun & Hinv2 & Hsw2 & Hnu2 & Hlen & Hall & Hsel2
          & Hfr2).
    exists f2, h2, (idx :: picks). simpl.
    unfold mbind, M_bind. rewrite Hit, Hrun.
    split_and!; try done.
    + congruence.
    + lia.
    + by rewrite Hlen.
    + by constructor.
    + rewrite Hsel2, Hsel, <- app_assoc. done.
    + intros l Hl. rewrite Hfr2 by congruence. by apply Hfr.
Qed.

Lemma compress_unlabeled_length {A} (w : list Q) (a : list A) :
  length w = length a →
  length (compress (map is_unlabeled w) a) = count_eligible w.
Proof.
  revert a. induction w as [|wi w IH]; intros [|x a] Hlen; simplify_eq/=;
    [done|].
  destruct (is_unlabeled wi); simpl; by rewrite IH.
Qed.

Lemma compress_labeled_length {A} (w : list Q) (a : list A) :
  length w = length a →
  (length (compress (map negb (map is_unlabeled w)) a) + count_eligible w
   = length w)%nat.
Proof.
  revert a. induction w as [|wi w IH]; intros [|x a] Hlen; simplify_eq/=;
    [done|].
  specialize (IH a Hlen). destruct (is_unlabeled wi); simpl; lia.
Qed.

Lemma mask_sum_unlabeled (w : list Q) :
  mask_sum (map is_unlabeled w) = Z.of_nat (count_eligible w).
Proof.
  induction w as [|wi w IH]; simpl; [done|].
  rewrite IH. destruct (is_unlabeled wi); lia.
Qed.

(** The code before the loop succeeds exactly on the inputs that have one
    weight per row, an unlabeled row and a labeled row; it allocates the
    private copy of the weights and nothing else. *)
Lemma setup_spec (X : matrix) (wloc : loc) (h : heap) (w : list Q) :
  h !! wloc = Some w →
  length w = length X →
  (0 < count_eligible w < length w)%nat →
  ∃ c f,
    setup metric X wloc h = (Ok (c, f), <[fresh (dom h) := w]> h) ∧
    loop_invariant c f (<[fresh (dom h) := w]> h) ∧
    RankedBatchSampler.X c = X ∧
    unlabeled_mask c = map is_unlabeled w ∧
    n_samples c = length X ∧
    samples_weights f = fresh (dom h) ∧
    samples_weights f ≠ wloc ∧
    n_unlabeled f = Z.of_nat (count_eligible w) ∧
    selected_samples f = [] ∧
    ∃ b B, compress (map negb (map is_unlabeled w)) X = b :: B ∧
           similarity_scores f =
             map similarity
               (map (λ a, min_distance metric a b B)
                  (compress (map is_unlabeled w) X)).
Proof.
  intros Hw Hlen [Hpos Hlt].
  pose proof (compress_unlabeled_length w X Hlen) as Hu.
  pose proof (compress_labeled_length w X Hlen) as Hl.
  destruct (compress (map negb (map is_unlabeled w)) X) as [|b B] eqn:HXl;
    [simpl in Hl; lia|].
  destruct (compress (map is_unlabeled w) X) as [|a A] eqn:HXu;
    [simpl in Hu; lia|].
  assert (Hfresh : fresh (dom h) ≠ wloc).
  { intros Heq. apply (is_fresh (dom h)). rewrite Heq.
    apply elem_of_dom. by exists w. }
  eexists _, _. split.
  { unfold setup. run. rewrite Hw. simpl.
    unfold bool_index. rewrite !length_map.
    rewrite !decide_True by done. simpl. rewrite HXu, HXl. simpl.
    reflexivity. }
  simpl. split_and!; try done.
  - exists w. simpl. rewrite lookup_insert_eq, HXu, length_map. simpl.
    rewrite !length_map. done.
  - apply mask_sum_unlabeled.
  - exists b, B. done.
Qed.

(** Whatever happens in the loop body, also when it raises, the only
    array it can write into is the one [samples_weights] refers to. *)
Lemma iteration_frame c f h l :
  l ≠ samples_weights f →
  (iteration metric c f h).2 !! l = h !! l ∧
  ∀ f', (iteration metric c f h).1 = Ok f' →
        samples_weights f' = samples_weights f.
Proof.
  intros Hl. unfold iteration. run.
  destruct (h !! samples_weights f) as [w|] eqn:Hw; simpl; [|done].
  destruct (argmax (scores c f w)) as [k|e]; simpl; [|done].
  destruct (getitem (compress (unlabeled_mask c) (index c)) k)
    as [idx|e]; simpl; [|done].
  destruct (getitem (X c) idx) as [x|e]; simpl; [|done].
  destruct (pairwise_distances_to metric
              (compress (unlabeled_mask c) (X c)) x) as [d|e]; simpl; [|done].
  rewrite Hw. destruct (decide (idx < length w)%nat); simpl; [|done].
  rewrite lookup_insert_ne by done. split; [done|].
  by intros f' [= <-].
Qed.

Lemma run_iterations_frame k c f h l :
  l ≠ samples_weights f →
  (run_iterations metric k c f h).2 !! l = h !! l.
Proof.
  revert f h. induction k as [|k IH]; intros f h Hl; simpl; [done|].
  unfold mbind, M_bind.
  destruct (iteration_frame c f h l Hl) as [Hfr Hsw].
  destruct (iteration metric c f h) as [[f'|e] h'] eqn:Hit; simpl in *;
    [|done].
  rewrite IH; [done|]. rewrite (Hsw f' eq_refl). done.
Qed.

Lemma setup_frame (X : matrix) (wloc : loc) (h : heap) l :
  l ∈ dom h →
  (setup metric X wloc h).2 !! l = h !! l ∧
  ∀ c f, (setup metric X wloc h).1 = Ok (c, f) → l ≠ samples_weights f.
Proof.
  intros Hl.
  assert (Hfresh : fresh (dom h) ≠ l).
  { intros Heq. apply (is_fresh (dom h)). by rewrite Heq. }
  unfold setup. run.
  destruct (h !! wloc) as [w|] eqn:Hw; simpl; [|done].
  destruct (bool_index (map is_unlabeled w) X) as [Xu|e]; simpl;
    [|by rewrite lookup_insert_ne].
  destruct (bool_index (map negb (map is_unlabeled w)) X) as [Xl|e]; simpl;
    [|by rewrite lookup_insert_ne].
  destruct (pairwise_distances_argmin_min metric Xu Xl) as [d|e]; simpl;
    [|by rewrite lookup_insert_ne].
  rewrite lookup_insert_ne by done. split; [done|].
  intros c f [= <- <-]. simpl. done.
Qed.

Lemma after_picks_frame k (X : matrix) (wloc : loc) (h : heap) l :
  l ∈ dom h →
  (after_picks metric k X wloc h).2 !! l = h !! l.
Proof.
  intros Hl. unfold after_picks, mbind, M_bind.
  destruct (setup_frame X wloc h l Hl) as [Hfr Hne].
  destruct (setup metric X wloc h) as [[[c f]|e] h1] eqn:Hs; simpl in *;
    [|done].
  pose proof (run_iterations_frame k c f h1 l (Hne c f eq_refl)) as Hrun.
  destruct (run_iterations metric k c f h1) as [[f'|e] h2]; simpl in *;
    congruence.
Qed.

Lemma select_samples_frame b (X : matrix) (wloc : loc) (h : heap) l :
  l ∈ dom h →
  (RankedBatchSampler.select_samples metric b X wloc h).2 !! l = h !! l.
Proof.
  intros Hl. unfold RankedBatchSampler.select_samples, mbind, M_bind.
  pose proof (after_picks_frame b X wloc h l Hl) as Hfr.
  destruct (after_picks metric b X wloc h) as [[cf|e] h1]; simpl in *; done.
Qed.

(** The loop variables after [k] passes, on a well-formed input. *)
Lemma after_picks_spec k (X : matrix) (wloc : loc) (h : heap) (w : list Q) :
  h !! wloc = Some w →
  length w = length X →
  (0 < count_eligible w < length w)%nat →
  ∃ c f h' picks,
    after_picks metric k X wloc h = (Ok (c, f), h') ∧
    loop_invariant c f h' ∧
    RankedBatchSampler.X c = X ∧
    unlabeled_mask c = map is_unlabeled w ∧
    n_samples c = length X ∧
    n_unlabeled f = (Z.of_nat (count_eligible w) - Z.of_nat k)%Z ∧
    selected_samples f = picks ∧
    length picks = k ∧
    Forall (eligible c) picks.
Proof.
  intros Hw Hlen Hcount.
  destruct (setup_spec X wloc h w Hw Hlen Hcount)
    as (c & f & Hs & Hinv & HX & Hmask & Hn & Hsw & Hne & Hnu & Hsel & _).
  destruct (run_iterations_spec k c f _ Hinv)
    as (f' & h' & picks & Hrun & Hinv' & Hsw' & Hnu' & Hlp & Hall & Hsel'
        & _).
  exists c, f', h', picks. unfold after_picks, mbind, M_bind.
  rewrite Hs. simpl. rewrite Hrun. simpl.
  split_and!; try done.
  - lia.
  - by rewrite Hsel', Hsel.
Qed.

Lemma is_unlabeled_spec (wi : Q) : is_unlabeled wi = true ↔ (-1 # 2 < wi)%Q.
Proof.
  unfold is_unlabeled. rewrite negb_true_iff.
  destruct (Qle_bool wi (-1 # 2)) eqn:Hle.
  - apply Qle_bool_iff in Hle. split; [done|]. intros Hlt.
    exfalso. by apply (Qlt_not_le _ _ Hlt).
  - split; [|done]. intros _. apply Qnot_le_lt. intros Hc.
    apply Qle_bool_iff in Hc. congruence.
Qed.

(** On a well-formed input [select_samples] returns, whatever the batch
    size: it returns [batch_size] row indices of [X], each of a row whose
    weight is above [-0.5]. *)
Lemma select_samples_total b (X : matrix) (wloc : loc) (h : heap)
    (w : list Q) :
  h !! wloc = Some w →
  length w = length X →
  (0 < count_eligible w < length w)%nat →
  ∃ picks h',
    RankedBatchSampler.select_samples metric b X wloc h = (Ok picks, h') ∧
    length picks = b ∧
    Forall (λ i, (i < length X)%nat ∧
                 ∃ wi, w !! i = Some wi ∧ (-1 # 2 < wi)%Q) picks.
Proof.
  intros Hw Hlen Hcount.
  destruct (after_picks_spec b X wloc h w Hw Hlen Hcount)
    as (c & f & h' & picks & Hap & _ & HX & Hmask & _ & _ & Hsel & Hlp & Hall).
  exists picks, h'. unfold RankedBatchSampler.select_samples, mbind, M_bind.
  rewrite Hap. simpl. rewrite Hsel. split_and!; try done.
  eapply Forall_impl; [exact Hall|]. intros i [Hi Hm]. simpl in *.
  rewrite HX in Hi. split; [done|].
  rewrite Hmask, list_lookup_fmap in Hm.
  destruct (w !! i) as [wi|] eqn:Hwi; simplify_eq/=.
  exists wi. split; [done|]. by apply is_unlabeled_spec.
Qed.

Lemma iteration_same c f1 f2 h1 h2 :
  same_variables f1 f2 h1 h2 →
  same_outcome same_variables
    (iteration metric c f1 h1) (iteration metric c f2 h2).
Proof.
  intros (Hs & Hn & Hsel & Hw). unfold iteration, same_outcome. run.
  rewrite <- Hw.
  destruct (h1 !! samples_weights f1) as [w|] eqn:Hw1; simpl; [|done].
  assert (Hsc : scores c f1 w = scores c f2 w).
  { unfold scores, alpha. by rewrite Hs, Hn. }
  rewrite <- Hsc.
  destruct (argmax (scores c f1 w)) as [k|e]; simpl; [|done].
  destruct (getitem (compress (unlabeled_mask c) (index c)) k)
    as [idx|e]; simpl; [|done].
  destruct (getitem (X c) idx) as [x|e]; simpl; [|done].
  destruct (pairwise_distances_to metric
              (compress (unlabeled_mask c) (X c)) x) as [d|e]; simpl; [|done].
  rewrite Hw1, <- Hw.
  destruct (decide (idx < length w)%nat); simpl; [|done].
  unfold same_variables. simpl. rewrite !lookup_insert_eq.
  by rewrite Hs, Hn, Hsel.
Qed.

Lemma run_iterations_same k c f1 f2 h1 h2 :
  same_variables f1 f2 h1 h2 →
  same_outcome same_variables
    (run_iterations metric k c f1 h1) (run_iterations metric k c f2 h2).
Proof.
  revert f1 f2 h1 h2. induction k as [|k IH]; intros f1 f2 h1 h2 Hsame.
  - done.
  - simpl. unfold mbind, M_bind.
    pose proof (iteration_same c f1 f2 h1 h2 Hsame) as Hit.
    unfold same_outcome in Hit.
    destruct (iteration metric c f1 h1) as [[f1'|e1] h1'],
             (iteration metric c f2 h2) as [[f2'|e2] h2']; simpl in *;
      try done.
    by apply IH.
Qed.

(** The outcome of a call depends on the content of the weight array it is
    given, not on where the array lives nor on the rest of the store. *)
Lemma after_picks_same k (X : matrix) l1 l2 (h1 h2 : heap) :
  h1 !! l1 = h2 !! l2 →
  same_outcome (λ cf1 cf2 h1' h2',
                  cf1.1 = cf2.1 ∧ same_variables cf1.2 cf2.2 h1' h2')
    (after_picks metric k X l1 h1) (after_picks metric k X l2 h2).
Proof.
  intros Hw. unfold after_picks, setup, same_outcome. run.
  rewrite <- Hw. destruct (h1 !! l1) as [w|]; simpl; [|done].
  destruct (bool_index (map is_unlabeled w) X) as [Xu|e]; simpl; [|done].
  destruct (bool_index (map negb (map is_unlabeled w)) X) as [Xl|e]; simpl;
    [|done].
  destruct (pairwise_distances_argmin_min metric Xu Xl) as [d|e]; simpl;
    [|done].
  match goal with
  | |- context [run_iterations metric k ?c ?f1 ?h1'] =>
      match goal with
      | |- context [run_iterations metric k c ?f2 ?h2'] =>
          assert_fails (unify f1 f2);
          pose proof (run_iterations_same k c f1 f2 h1' h2') as Hrun
      end
  end.
  unfold same_outcome in Hrun.
  destruct (run_iterations metric k _ _ (<[fresh (dom h1):=w]> h1))
    as [[f1'|e1] h1'],
    (run_iterations metric k _ _ (<[fresh (dom h2):=w]> h2))
    as [[f2'|e2] h2']; simpl in *; try split; try done; apply Hrun;
    unfold same_variables; simpl; by rewrite !lookup_insert_eq.
Qed.

Lemma select_samples_same b (X : matrix) l1 l2 (h1 h2 : heap) :
  h1 !! l1 = h2 !! l2 →
  (RankedBatchSampler.select_samples metric b X l1 h1).1
  = (RankedBatchSampler.select_samples metric b X l2 h2).1.
Proof.
  intros Hw. unfold RankedBatchSampler.select_samples, mbind, M_bind.
  pose proof (after_picks_same b X l1 l2 h1 h2 Hw) as Hs.
  unfold same_outcome in Hs.
  destruct (after_picks metric b X l1 h1) as [[cf1|e1] h1'],
           (after_picks metric b X l2 h2) as [[cf2|e2] h2']; simpl in *;
    try done.
  - destruct Hs as (_ & _ & _ & Hsel & _). by rewrite Hsel.
  - by rewrite Hs.
Qed.

End RankedBatchSampler_loop.

(** ** RankedBatchSampler: the claims *)

Section RankedBatchSampler_claims.
Import RankedBatchSampler.
Variable metric : row → row → Q.

(** C9. The array the caller passes as [samples_weights] has the same
    content when [select_samples] returns or raises as it had at the call:
    the writes go to a private copy.  A second call on the same arrays
    therefore sees the same input and yields the same outcome. *)
Theorem select_samples_leaves_weights_unchanged
    b (X : matrix) (wloc : loc) (h : heap) (w : list Q) :
  h !! wloc = Some w →
  let after := RankedBatchSampler.select_samples metric b X wloc h in
  after.2 !! wloc = Some w ∧
  (∀ l, l ∈ dom h → after.2 !! l = h !! l) ∧
  (RankedBatchSampler.select_samples metric b X wloc after.2).1 = after.1.
Proof.
  intros Hw after.
  assert (Hdom : wloc ∈ dom h) by (apply elem_of_dom; by exists w).
  assert (Hkeep : after.2 !! wloc = Some w).
  { unfold after. by rewrite select_samples_frame. }
  split_and!; [done| |].
  - intros l Hl. by apply select_samples_frame.
  - apply select_samples_same. by rewrite Hkeep, Hw.
Qed.

(** C2, as amended. When [batch_size] exceeds the number of rows whose
    weight is above [-0.5], and the input has one weight per row, an
    unlabeled row and a labeled row, [select_samples] raises nothing: it
    returns [batch_size] indices of unlabeled rows, among which some row
    is repeated. *)
Theorem select_samples_oversized_batch
    b (X : matrix) (wloc : loc) (h : heap) (w : list Q) :
  h !! wloc = Some w →
  length w = length X →
  (0 < count_eligible w < length w)%nat →
  (count_eligible w < b)%nat →
  ∃ picks,
    (RankedBatchSampler.select_samples metric b X wloc h).1 = Ok picks ∧
    length picks = b ∧
    Forall (λ i, (i < length X)%nat ∧
                 ∃ wi, w !! i = Some wi ∧ (-1 # 2 < wi)%Q) picks ∧
    ¬ NoDup picks.
Proof.
  intros Hw Hlen Hcount Hb.
  destruct (select_samples_total metric b X wloc h w Hw Hlen Hcount)
    as (picks & h' & Hss & Hlp & Hall).
  exists picks. rewrite Hss. split_and!; try done.
  intros Hnodup.
  assert (Hin : ∀ s i, map is_unlabeled w !! i = Some true →
            (s + i)%nat ∈ compress (map is_unlabeled w) (seq s (length w))).
  { clear. induction w as [|wi w' IH]; intros s i Him; [done|].
    simpl. destruct i as [|i]; simpl in Him.
    - injection Him as ->. rewrite Nat.add_0_r. left.
    - specialize (IH (S s) i Him).
      replace (s + S i)%nat with (S s + i)%nat by lia.
      destruct (is_unlabeled wi); [right|]; done. }
  assert (Hle : (length picks
                 ≤ length (compress (map is_unlabeled w)
                             (seq 0 (length w))))%nat).
  { apply submseteq_length, NoDup_submseteq; [done|].
    intros i Hi. rewrite Forall_forall in Hall.
    destruct (Hall i Hi) as (_ & wi & Hwi & Hgt).
    apply (Hin 0%nat i). rewrite list_lookup_fmap, Hwi. simpl.
    f_equal. by apply is_unlabeled_spec. }
  rewrite compress_unlabeled_length in Hle by (by rewrite length_seq).
  lia.
Qed.


Global Instance similarity_proper : Proper (Qeq ==> Qeq) similarity.
Proof. intros d1 d2 Hd. unfold similarity. by rewrite Hd. Qed.



Lemma min_distance_nonneg (a b : row) (B : matrix) :
  (∀ r s, 0 <= metric r s)%Q → (0 <= min_distance metric a b B)%Q.
Proof.
  intros Hpos. unfold min_distance.
  generalize (Hpos a b). generalize (metric a b).
  induction B as [|r B IH]; intros acc Hacc; simpl; [done|].
  apply IH. by apply Q.min_glb.
Qed.

(** A property of the loop variables that every pass preserves holds after
    any number of passes. *)
Lemma run_iterations_preserves (P : frame → Prop) c :
  (∀ f h f' h',
      loop_invariant c f h → P f →
      iteration metric c f h = (Ok f', h') → P f') →
  ∀ k f h f' h',
    loop_invariant c f h → P f →
    run_iterations metric k c f h = (Ok f', h') → P f'.
Proof.
  intros Hstep k. induction k as [|k IH]; intros f h f' h' Hinv HP Hrun.
  - simpl in Hrun. by injection Hrun as <- <-.
  - simpl in Hrun. unfold mbind, M_bind in Hrun.
    destruct (iteration_step metric c f h Hinv)
      as (f1 & h1 & idx & Hit & Hinv1 & _).
    rewrite Hit in Hrun. eapply IH; [exact Hinv1| |exact Hrun].
    exact (Hstep f h f1 h1 Hinv HP Hit).
Qed.



Lemma compress_sublist {A} (mask : list bool) (a : list A) :
  sublist (compress mask a) a.
Proof.
  revert a. induction mask as [|b mask IH]; intros [|x a]; simpl;
    try apply sublist_nil_l.
  destruct b; [by apply sublist_skip|by apply sublist_cons].
Qed.

Lemma similarity_le_1 (d : Q) : (0 <= d)%Q → (similarity d <= 1)%Q.
Proof.
  intros Hd. unfold similarity. apply Qle_shift_div_r; lra.
Qed.

(** C4. In pass [k] of the loop (counted from 0) [alpha] is
    [(u0 - k) / n_samples], where [u0] is the number of rows whose weight
    is above [-0.5] at the call and [n_samples] the number of rows of [X];
    the value computed in the next pass is strictly smaller. *)
Theorem alpha_schedule k (X : matrix) (wloc : loc) (h : heap) (w : list Q) :
  h !! wloc = Some w →
  length w = length X →
  (0 < count_eligible w < length w)%nat →
  ∃ a a',
    alpha_at metric k X wloc h = Ok a ∧
    (a == (inject_Z (Z.of_nat (count_eligible w)) - inject_Z (Z.of_nat k))
          / inject_Z (Z.of_nat (length X)))%Q ∧
    alpha_at metric (S k) X wloc h = Ok a' ∧
    (a' < a)%Q.
Proof.
  intros Hw Hlen Hcount.
  destruct (after_picks_spec metric k X wloc h w Hw Hlen Hcount)
    as (c & f & h' & picks & Hap & _ & _ & _ & Hn & Hnu & _).
  destruct (after_picks_spec metric (S k) X wloc h w Hw Hlen Hcount)
    as (c1 & f1 & h1 & picks1 & Hap1 & _ & _ & _ & Hn1 & Hnu1 & _).
  exists (alpha c f), (alpha c1 f1). unfold alpha_at.
  rewrite Hap, Hap1. simpl. split_and!; try done.
  - unfold alpha. rewrite Hnu, Hn. unfold Zminus.
    rewrite inject_Z_plus, inject_Z_opp. reflexivity.
  - unfold alpha. rewrite Hnu, Hnu1, Hn, Hn1. unfold Qdiv.
    apply Qmult_lt_compat_r.
    + apply Qinv_lt_0_compat. rewrite <- (Zlt_Qlt 0). lia.
    + rewrite <- Zlt_Qlt. lia.
Qed.

End RankedBatchSampler_claims.

(** C1, at [X3], [w3] and a batch of two: both rows 1 and 2 are eligible, yet
    [select_samples] returns row 1 twice.  After the first pick the selected
    row stays under [unlabeled_mask] with score 0, and row 2, which lies at
    distance 0 from it and has weight 0, scores 0 as well; [argmax] takes the
    first of the two. *)
Theorem select_samples_repeats_a_row :
  length w3 = length X3 ∧
  (2 ≤ RankedBatchSampler.count_eligible w3)%nat ∧
  (RankedBatchSampler.select_samples euclidean_1d 2 X3 1%positive
     (store1 w3)).1 = Ok [1; 1]%nat ∧
  ¬ NoDup [1; 1]%nat.
Proof.
  split_and!; [done|simpl; lia|by vm_compute|].
  intros Hnd. apply NoDup_cons in Hnd as [Hnotin _]. apply Hnotin. left.
Qed.

(** C2, as stated, fails at [X2], [w2] and a batch of two: one row is
    eligible, and the call returns a batch instead of raising. *)
Lemma select_samples_oversized_batch_returns :
  (RankedBatchSampler.count_eligible w2 < 2)%nat ∧
  (RankedBatchSampler.select_samples euclidean_1d 2 X2 1%positive
     (store1 w2)).1 = Ok [1; 1]%nat ∧
  ∀ e, (RankedBatchSampler.select_samples euclidean_1d 2 X2 1%positive
          (store1 w2)).1 ≠ Raise e.
Proof.
  split_and!; [simpl; lia|by vm_compute|].
  intros e. by vm_compute.
Qed.

Lemma select_samples_oversized_batch_witness :
  ∃ picks,
    (RankedBatchSampler.select_samples euclidean_1d 2 X2 1%positive
       (store1 w2)).1 = Ok picks ∧
    length picks = 2%nat ∧
    Forall (λ i, (i < length X2)%nat ∧
                 ∃ wi, w2 !! i = Some wi ∧ (-1 # 2 < wi)%Q) picks ∧
    ¬ NoDup picks.
Proof.
  apply (select_samples_oversized_batch euclidean_1d 2 X2 1%positive
           (store1 w2) w2); [reflexivity|reflexivity|simpl; lia|simpl; lia].
Defined.

Lemma select_samples_leaves_weights_unchanged_witness :
  let after :=
    RankedBatchSampler.select_samples euclidean_1d 1 X6 1%positive (store1 w6)
  in
  after.2 !! 1%positive = Some w6 ∧
  (∀ l, l ∈ dom (store1 w6) → after.2 !! l = store1 w6 !! l) ∧
  (RankedBatchSampler.select_samples euclidean_1d 1 X6 1%positive after.2).1
  = after.1.
Proof.
  apply (select_samples_leaves_weights_unchanged euclidean_1d 1 X6 1%positive
           (store1 w6) w6). reflexivity.
Defined.

Lemma alpha_schedule_witness :
  ∃ a a',
    alpha_at euclidean_1d 0 X6 1%positive (store1 w6) = Ok a ∧
    (a == (inject_Z (Z.of_nat (RankedBatchSampler.count_eligible w6))
           - inject_Z (Z.of_nat 0)) / inject_Z (Z.of_nat (length X6)))%Q ∧
    alpha_at euclidean_1d 1 X6 1%positive (store1 w6) = Ok a' ∧
    (a' < a)%Q.
Proof.
  apply (alpha_schedule euclidean_1d 0 X6 1%positive (store1 w6) w6);
    [reflexivity|reflexivity|simpl; lia].
Defined.

Lemma euclidean_1d_nonneg (r s : row) : (0 <= euclidean_1d r s)%Q.
Proof.
  unfold euclidean_1d.
  destruct r as [|x [|? ?]]; try done; destruct s as [|y [|? ?]]; try done.
  apply Qabs_nonneg.
Qed.


(** C8. On the six points 0, 1, 2, 10, 11, 12 with weights
    [-1, -1, -1, 0.5, 0.5, 0.5], a batch of one and the Euclidean distance,
    [select_samples] returns one index, which is 3, 4 or 5 and is none of 0,
    1 and 2. *)
Theorem select_samples_six_points (wloc : loc) (h : heap) :
  h !! wloc = Some w6 →
  ∃ i, (RankedBatchSampler.select_samples euclidean_1d 1 X6 wloc h).1
       = Ok [i] ∧
       i ∈ [3; 4; 5]%nat ∧ i ∉ [0; 1; 2]%nat.
Proof.
  intros Hw. exists 5%nat.
  rewrite (select_samples_same euclidean_1d 1 X6 wloc 1%positive h
             (store1 w6)) by (by rewrite Hw).
  split_and!; [by vm_compute| |].
  - set_solver.
  - intros Hin. set_unfold. lia.
Qed.

Lemma select_samples_six_points_witness :
  ∃ i, (RankedBatchSampler.select_samples euclidean_1d 1 X6 1%positive
          (store1 w6)).1 = Ok [i] ∧
       i ∈ [3; 4; 5]%nat ∧ i ∉ [0; 1; 2]%nat.
Proof.
  apply (select_samples_six_points 1%positive (store1 w6)). reflexivity.
Defined.

(** ** ScoredQuerySampler *)

Section argsort_order.
Variable key : nat → Q.

Let below (i j : nat) : Prop :=
  (key i < key j)%Q ∨ ((key i == key j)%Q ∧ (i < j)%nat).

Lemma below_trans i j k : below i j → below j k → below i k.
Proof.
  unfold below. intros [H1|[H1 H1']] [H2|[H2 H2']].
  - left. lra.
  - left. lra.
  - left. lra.
  - right. split; [lra|lia].
Qed.

Lemma insert_sorted_perm i l : insert_sorted key i l ≡ₚ i :: l.
Proof.
  induction l as [|j l IH]; simpl; [done|].
  destruct (Qle_bool (key i) (key j)); [done|].
  rewrite IH. apply Permutation_swap.
Qed.

Lemma insert_sorted_sorted i l :
  Forall (λ j, (i < j)%nat) l →
  StronglySorted below l →
  StronglySorted below (insert_sorted key i l).
Proof.
  induction l as [|j l IH]; intros Hlt Hsorted; simpl.
  - repeat constructor.
  - apply Forall_cons in Hlt as [Hij Hlt].
    apply StronglySorted_inv in Hsorted as [Hsorted Hj].
    destruct (Qle_bool (key i) (key j)) eqn:Hle.
    + apply Qle_bool_iff in Hle.
      assert (Hbelow : below i j).
      { apply Qle_lteq in Hle as [Hl|He]; [by left|by right]. }
      constructor; [by constructor|].
      constructor; [done|].
      eapply Forall_impl; [exact Hj|]. intros k Hk. simpl in Hk.
      by eapply below_trans.
    + assert (Hbelow : below j i).
      { left. apply Qnot_le_lt. intros Hc. apply Qle_bool_iff in Hc.
        congruence. }
      constructor; [by apply IH|].
      rewrite insert_sorted_perm. by constructor.
Qed.

Lemma argsort_from_perm indices : argsort_from key indices ≡ₚ indices.
Proof.
  induction indices as [|i l IH]; simpl; [done|].
  unfold argsort_from in *. simpl. by rewrite insert_sorted_perm, IH.
Qed.

Lemma argsort_from_sorted s n :
  StronglySorted below (argsort_from key (seq s n)).
Proof.
  revert s. induction n as [|n IH]; intros s; simpl.
  - constructor.
  - apply insert_sorted_sorted; [|apply IH].
    fold (argsort_from key (seq (S s) n)).
    rewrite argsort_from_perm. apply Forall_forall. intros j Hj.
    apply elem_of_seq in Hj. lia.
Qed.

End argsort_order.

Lemma StronglySorted_weaken {A} (R R' : A → A → Prop) (l : list A) :
  (∀ x y, R x y → R' x y) → StronglySorted R l → StronglySorted R' l.
Proof.
  intros HR. induction 1 as [|x l Hs IH Hx]; constructor; [done|].
  eapply Forall_impl; [exact Hx|]. intros y. apply HR.
Qed.

Lemma StronglySorted_app_cross {A} (R : A → A → Prop) (l1 l2 : list A) x y :
  StronglySorted R (l1 ++ l2) → x ∈ l1 → y ∈ l2 → R x y.
Proof.
  induction l1 as [|z l1 IH]; intros Hsorted Hx Hy; [by inversion Hx|].
  simpl in Hsorted. apply StronglySorted_inv in Hsorted as [Hsorted Hz].
  apply elem_of_cons in Hx as [->|Hx]; [|by apply IH].
  rewrite Forall_forall in Hz. apply Hz. apply elem_of_app. by right.
Qed.

Lemma StronglySorted_app_r {A} (R : A → A → Prop) (l1 l2 : list A) :
  StronglySorted R (l1 ++ l2) → StronglySorted R l2.
Proof.
  induction l1 as [|x l1 IH]; simpl; [done|].
  intros Hs. apply StronglySorted_inv in Hs as [Hs _]. by apply IH.
Qed.

(** Insertion sort does what numpy promises of [np.argsort]. *)
Lemma insertion_argsort_sorts : sorts_ascending insertion_argsort.
Proof.
  intros a. split; [apply argsort_from_perm|].
  eapply StronglySorted_weaken;
    [|exact (argsort_from_sorted (λ i, default 0%Q (a !! i)) 0 (length a))].
  intros i j [Hlt|[Heq _]]; unfold score_of.
  - by apply Qlt_le_weak.
  - rewrite Heq. apply Qle_refl.
Qed.

Section top.
Variable argsort : list Q → list nat.
Hypothesis argsort_sorts : sorts_ascending argsort.

(** [top] with a batch size between 1 and the number of samples: the batch
    has that many distinct samples, and no sample left out has a larger
    score than a sample taken. *)
Lemma top_spec (b : nat) (scores : list Q) :
  (0 < b ≤ length scores)%nat →
  length (ScoredQuerySampler.top argsort b scores) = b ∧
  NoDup (ScoredQuerySampler.top argsort b scores) ∧
  (∀ i, i ∈ ScoredQuerySampler.top argsort b scores →
        (i < length scores)%nat) ∧
  (∀ i j, i ∈ ScoredQuerySampler.top argsort b scores →
          (j < length scores)%nat →
          j ∉ ScoredQuerySampler.top argsort b scores →
          (score_of scores j <= score_of scores i)%Q).
Proof using argsort_sorts.
  intros Hb. unfold ScoredQuerySampler.top, slice_from.
  destruct (argsort_sorts scores) as [Hperm Hsorted].
  assert (Hlen : length (argsort scores) = length scores).
  { by rewrite Hperm, length_seq. }
  rewrite Hlen.
  replace (- Z.of_nat b <? 0)%Z with true by (symmetry; apply Z.ltb_lt; lia).
  replace (Z.to_nat (Z.max (Z.of_nat (length scores) + - Z.of_nat b) 0))
    with (length scores - b)%nat by lia.
  set (d := (length scores - b)%nat).
  assert (Hnodup : NoDup (argsort scores)).
  { rewrite Hperm. apply NoDup_seq. }
  split_and!.
  - rewrite length_drop. lia.
  - rewrite <- (take_drop d (argsort scores)) in Hnodup.
    by apply NoDup_app in Hnodup as (_ & _ & ?).
  - intros i Hi.
    assert (Hin : i ∈ argsort scores).
    { rewrite <- (take_drop d (argsort scores)). apply elem_of_app. by right. }
    rewrite Hperm in Hin. apply elem_of_seq in Hin. lia.
  - intros i j Hi Hj Hnot.
    assert (Hin : j ∈ argsort scores).
    { rewrite Hperm. apply elem_of_seq. lia. }
    rewrite <- (take_drop d (argsort scores)) in Hin.
    apply elem_of_app in Hin as [Hin|Hin]; [|done].
    rewrite <- (take_drop d (argsort scores)) in Hsorted.
    exact (StronglySorted_app_cross _ _ _ j i Hsorted Hin Hi).
Qed.

End top.

(** With a batch size of 0 the slice [[-0:]] is the whole array: [top]
    returns every sample. *)
Lemma top_zero (argsort : list Q → list nat) (scores : list Q) :
  ScoredQuerySampler.top argsort 0 scores = argsort scores.
Proof.
  unfold ScoredQuerySampler.top, slice_from. simpl.
  by rewrite Z.min_l by lia.
Qed.

Section ScoredQuerySampler_claims.
Import ScoredQuerySampler.
Variable rng : Type.
Variable choice : rng → list nat → nat → list Q → result (list nat) * rng.
Variable score_samples : matrix → result (list Q).
Variable argsort : list Q → list nat.

(** C5, as amended. With the strategy ['top'] and a batch size between 1
    and the number of samples, for an [np.argsort] that does what numpy
    promises of it, [select_samples] returns [batch_size] distinct samples,
    and no sample it leaves out has a larger score than a sample it
    returns.  Which of the samples that tie at the boundary are taken is
    whatever order [np.argsort] gives to equal scores; no index is
    preferred. *)
Theorem top_strategy_takes_highest_ranked
    (self : t rng) (X : matrix) (scores : list Q) :
  sorts_ascending argsort →
  strategy rng self = "top" →
  score_samples X = Ok scores →
  (0 < batch_size rng self ≤ length scores)%nat →
  ∃ picks,
    (select_samples rng choice score_samples argsort self X).1 = Ok picks ∧
    length picks = batch_size rng self ∧
    NoDup picks ∧
    (∀ i, i ∈ picks → (i < length scores)%nat) ∧
    (∀ i j, i ∈ picks → (j < length scores)%nat → j ∉ picks →
            (score_of scores j <= score_of scores i)%Q).
Proof.
  intros Hsorts Hstrat Hscores Hb.
  exists (top argsort (batch_size rng self) scores).
  unfold select_samples. rewrite Hscores. simpl. rewrite Hstrat. simpl.
  split; [done|]. by apply top_spec.
Qed.

(** C10. Whatever the strategy, known or not, [select_samples] leaves the
    scores that [score_samples] returned in [sample_scores_]: as they were
    returned for ['squared_choice'], and also when the call ends in the
    error for an unknown strategy. *)
Theorem select_samples_records_raw_scores
    (self : t rng) (X : matrix) (scores : list Q) :
  score_samples X = Ok scores →
  let after := select_samples rng choice score_samples argsort self X in
  sample_scores_ rng after.2 = Some scores ∧
  (strategy rng self ≠ "top" →
   strategy rng self ≠ "linear_choice" →
   strategy rng self ≠ "squared_choice" →
   after.1 = Raise ValueError ∧ after.2 = set_sample_scores_ rng self scores).
Proof.
  intros Hscores. unfold select_samples. rewrite Hscores. simpl.
  split.
  - destruct (String.eqb (strategy rng self) "top"); [done|].
    destruct (String.eqb (strategy rng self) "linear_choice").
    { by destruct (choice _ _ _ _). }
    destruct (String.eqb (strategy rng self) "squared_choice").
    { by destruct (choice _ _ _ _). }
    done.
  - intros H1 H2 H3.
    apply String.eqb_neq in H1, H2, H3. by rewrite H1, H2, H3.
Qed.

End ScoredQuerySampler_claims.

Lemma top_strategy_takes_highest_ranked_witness :
  ∃ picks,
    (ScoredQuerySampler.select_samples unit choice_first score_row_sum
       insertion_argsort (scored_sampler 1 "top") X_tie).1 = Ok picks ∧
    length picks = 1%nat ∧
    NoDup picks ∧
    (∀ i, i ∈ picks → (i < length (map sum X_tie))%nat) ∧
    (∀ i j, i ∈ picks → (j < length (map sum X_tie))%nat → j ∉ picks →
            (score_of (map sum X_tie) j <= score_of (map sum X_tie) i)%Q).
Proof.
  apply (top_strategy_takes_highest_ranked unit choice_first score_row_sum
           insertion_argsort (scored_sampler 1 "top") X_tie (map sum X_tie));
    [exact insertion_argsort_sorts|reflexivity|reflexivity|simpl; lia].
Defined.

(** C5, as stated, fails on two samples with the same score and a batch of
    one, for an argsort that leaves an array already in order as it is
    (which is what numpy promises allows, and what it does on this array):
    the sample taken is the one with the higher index. *)
Lemma top_strategy_tie_takes_higher_index :
  sorts_ascending insertion_argsort ∧
  insertion_argsort (map sum X_tie) = [0; 1]%nat ∧
  (ScoredQuerySampler.select_samples unit choice_first score_row_sum
     insertion_argsort (scored_sampler 1 "top") X_tie).1 = Ok [1%nat] ∧
  score_row_sum X_tie = Ok (map sum X_tie) ∧
  (score_of (map sum X_tie) 0 == score_of (map sum X_tie) 1)%Q ∧
  0%nat ∉ [1%nat].
Proof.
  split_and!;
    [exact insertion_argsort_sorts|by vm_compute|by vm_compute|done
    |by vm_compute|].
  intros Hin. set_unfold. lia.
Qed.

Lemma select_samples_records_raw_scores_witness :
  let after :=
    ScoredQuerySampler.select_samples unit choice_first score_row_sum
      insertion_argsort (scored_sampler 1 "bogus") X_tie in
  ScoredQuerySampler.sample_scores_ unit after.2 = Some (map sum X_tie) ∧
  (ScoredQuerySampler.strategy unit (scored_sampler 1 "bogus") ≠ "top" →
   ScoredQuerySampler.strategy unit (scored_sampler 1 "bogus")
   ≠ "linear_choice" →
   ScoredQuerySampler.strategy unit (scored_sampler 1 "bogus")
   ≠ "squared_choice" →
   after.1 = Raise ValueError ∧
   after.2 = ScoredQuerySampler.set_sample_scores_ unit
               (scored_sampler 1 "bogus") (map sum X_tie)).
Proof.
  apply (select_samples_records_raw_scores unit choice_first score_row_sum
           insertion_argsort (scored_sampler 1 "bogus") X_tie
           (map sum X_tie)).
  reflexivity.
Defined.

(** ** ChainQuerySampler *)

Section ChainQuerySampler_claims.
Import ChainQuerySampler.

Lemma compress_elem {A} (mask : list bool) (a : list A) x :
  x ∈ compress mask a → x ∈ a.
Proof.
  revert a. induction mask as [|b mask IH]; intros [|y a] Hx; simpl in *;
    try by inversion Hx.
  destruct b.
  - apply elem_of_cons in Hx as [->|Hx]; [left|right; by apply IH].
  - right. by apply IH.
Qed.

Lemma take_elem {A} (a : list A) (idx : list Z) r x :
  take a idx = Ok r → x ∈ r → x ∈ a.
Proof.
  revert r. induction idx as [|i idx IH]; intros r Htake Hx; simpl in *.
  - injection Htake as <-. by inversion Hx.
  - unfold mbind, result_bind in Htake.
    destruct (normalize_index (length a) i) as [k|e]; [|done].
    unfold getitem in Htake.
    destruct (a !! k) as [y|] eqn:Hy; [|done].
    destruct (take a idx) as [r'|e]; [|done].
    injection Htake as <-.
    apply elem_of_cons in Hx as [->|Hx].
    + by eapply list_elem_of_lookup_2.
    + by eapply IH.
Qed.

Lemma fancy_index_elem {A} (a : list A) (idx : index_array) r x :
  fancy_index a idx = Ok r → x ∈ r → x ∈ a.
Proof.
  destruct idx as [l|m]; simpl.
  - apply take_elem.
  - unfold bool_index. case_decide; [|done].
    intros [= <-]. apply compress_elem.
Qed.

Lemma chain_step_spec X sampler selected selected' sampler' :
  chain_step X sampler selected = (Ok selected', sampler') →
  (∀ i, i ∈ selected' → i ∈ selected) ∧
  filters X sampler sampler' selected selected'.
Proof.
  unfold chain_step, filters. intros Hstep.
  destruct (member_fit sampler X None) as [[[]|e] fitted] eqn:Hfit; [|done].
  destruct (member_predict fitted) as [fitted_predict|] eqn:Hlook; [|done].
  destruct (take X selected) as [X_selected|e] eqn:Htake; [|done].
  destruct (fitted_predict X_selected)
    as [[new_selected|e] after] eqn:Hpred; [|done].
  injection Hstep as Hidx <-. split.
  - intros i. by eapply fancy_index_elem.
  - exists fitted, fitted_predict, X_selected, new_selected.
    split_and!; done.
Qed.

Lemma chain_loop_spec X rest selected picks rest' :
  chain_loop X rest selected = (Ok picks, rest') →
  (∀ i, i ∈ picks → i ∈ selected) ∧ filtered X rest selected rest' picks.
Proof.
  revert selected picks rest'.
  induction rest as [|sampler rest IH]; intros selected picks rest' Hloop;
    simpl in Hloop.
  - injection Hloop as <- <-. split; [done|constructor].
  - destruct (chain_step X sampler selected)
      as [[selected'|e] sampler'] eqn:Hstep; [|done].
    destruct (chain_loop X rest selected') as [r rest''] eqn:Hrest.
    injection Hloop as -> <-.
    destruct (IH _ _ _ Hrest) as [Hsub Hall].
    destruct (chain_step_spec _ _ _ _ _ Hstep) as [Hsub' Hfit].
    split; [|by econstructor].
    intros i Hi. by apply Hsub', Hsub.
Qed.

(** C6, as amended. [select_samples] first obtains an index array from the
    first sampler; then each later sampler in turn is fitted on all of [X],
    not on the rows selected so far, predicts on the rows of [X] that the
    current selection names, and its answer indexes that selection, which
    gives the next one.  A result it returns is the last of these
    selections and holds only indices that the first sampler returned. *)
Theorem chain_stays_within_first_selection
    (sampler_list : list member) (X : matrix) picks sampler_list' :
  select_samples sampler_list X = (Ok picks, sampler_list') →
  ∃ first rest first' rest' selected,
    sampler_list = first :: rest ∧
    sampler_list' = first' :: rest' ∧
    member_select_samples first X = (Ok selected, first') ∧
    filtered X rest selected rest' picks ∧
    (∀ i, i ∈ picks → i ∈ selected).
Proof.
  intros Hsel. destruct sampler_list as [|first rest]; [done|].
  simpl in Hsel.
  destruct (member_select_samples first X) as [[selected|e] first'] eqn:Hf;
    [|done].
  destruct (chain_loop X rest selected) as [r rest'] eqn:Hloop.
  injection Hsel as -> <-.
  destruct (chain_loop_spec _ _ _ _ _ Hloop) as [Hsub Hall].
  by exists first, rest, first', rest', selected.
Qed.

End ChainQuerySampler_claims.

Lemma chain_stays_within_first_selection_witness :
  ∃ first rest first' rest' selected,
    [first_row_member; recording_member None] = first :: rest ∧
    [first_row_member; recording_member (Some 3%nat)] = first' :: rest' ∧
    ChainQuerySampler.member_select_samples first X3 = (Ok selected, first') ∧
    ChainQuerySampler.filtered X3 rest selected rest' [0%Z] ∧
    (∀ i, i ∈ [0%Z] → i ∈ selected).
Proof.
  apply (chain_stays_within_first_selection
           [first_row_member; recording_member None] X3 [0%Z]
           [first_row_member; recording_member (Some 3%nat)]).
  reflexivity.
Defined.

(** C6, as stated, fails on the chain of a sampler that selects row 0 and a
    sampler that records the size of what it is fitted on: over the three
    rows of [X3] the second sampler ends fitted on three rows, where the
    selected subset has one row and a fit on it records one. *)
Lemma chain_fits_on_all_rows :
  ChainQuerySampler.select_samples
    [first_row_member; recording_member None] X3
  = (Ok [0%Z], [first_row_member; recording_member (Some 3%nat)]) ∧
  take X3 [0%Z] = Ok [[0%Q]] ∧
  ChainQuerySampler.member_fit (recording_member None) [[0%Q]] None
  = (Ok tt, recording_member (Some 1%nat)) ∧
  Some 3%nat ≠ Some 1%nat.
Proof. split_and!; done. Qed.

(** ** AdaptiveQuerySampler *)

Section AdaptiveQuerySampler_claims.
Context {E P : Type} `{!QuerySampler E} `{!QuerySampler P}.

(** C7. [fit] records the size of the labeled set and fits both
    sub-samplers, whatever that size.  After it, [select_samples] returns
    what the exploration sampler alone returns when the recorded size is at
    most 50, and what the exploitation sampler alone returns when it is
    above 50; the sampler that is not consulted is left as it was. *)
Theorem adaptive_routes_by_train_size
    (self fitted : @AdaptiveQuerySampler.t E P)
    (X_train : matrix) (y_train : labels) (X : matrix) :
  AdaptiveQuerySampler.fit self X_train y_train = (Ok tt, fitted) →
  AdaptiveQuerySampler._X_train_size fitted
    = Some (Z.of_nat (length X_train)) ∧
  fit (AdaptiveQuerySampler.exploration_sampler self) X_train (Some y_train)
    = (Ok tt, AdaptiveQuerySampler.exploration_sampler fitted) ∧
  fit (AdaptiveQuerySampler.exploitation_sampler self) X_train (Some y_train)
    = (Ok tt, AdaptiveQuerySampler.exploitation_sampler fitted) ∧
  let after := AdaptiveQuerySampler.select_samples fitted X in
  ((length X_train ≤ 50)%nat →
   after.1
     = (select_samples (AdaptiveQuerySampler.exploration_sampler fitted) X).1
   ∧ AdaptiveQuerySampler.exploitation_sampler after.2
     = AdaptiveQuerySampler.exploitation_sampler fitted) ∧
  ((50 < length X_train)%nat →
   after.1
     = (select_samples (AdaptiveQuerySampler.exploitation_sampler fitted) X).1
   ∧ AdaptiveQuerySampler.exploration_sampler after.2
     = AdaptiveQuerySampler.exploration_sampler fitted).
Proof.
  unfold AdaptiveQuerySampler.fit. intros Hfit.
  destruct (fit (AdaptiveQuerySampler.exploration_sampler self) X_train
              (Some y_train)) as [[[]|e] explo] eqn:He; [|done].
  destruct (fit (AdaptiveQuerySampler.exploitation_sampler self) X_train
              (Some y_train)) as [r exploit] eqn:Hp.
  injection Hfit as -> <-. simpl.
  split_and!; try done.
  - intros Hle. unfold AdaptiveQuerySampler.select_samples. simpl.
    replace (Z.of_nat (length X_train) <=? 50)%Z with true
      by (symmetry; apply Z.leb_le; lia).
    by destruct (select_samples explo X).
  - intros Hgt. unfold AdaptiveQuerySampler.select_samples. simpl.
    replace (Z.of_nat (length X_train) <=? 50)%Z with false
      by (symmetry; apply Z.leb_gt; lia).
    by destruct (select_samples exploit X).
Qed.

End AdaptiveQuerySampler_claims.

Lemma adaptive_routes_by_train_size_witness :
  let fitted : @AdaptiveQuerySampler.t FirstRowSampler.t RecordingSampler.t :=
    {| AdaptiveQuerySampler.exploration_sampler :=
         {| FirstRowSampler.batch_size := 1 |};
       AdaptiveQuerySampler.exploitation_sampler :=
         {| RecordingSampler.fitted_rows := Some 3%nat |};
       AdaptiveQuerySampler._X_train_size := Some 3%Z |} in
  AdaptiveQuerySampler._X_train_size fitted = Some (Z.of_nat (length X3)) ∧
  fit (AdaptiveQuerySampler.exploration_sampler adaptive_example) X3
    (Some [0; 1; 1]%Z)
    = (Ok tt, AdaptiveQuerySampler.exploration_sampler fitted) ∧
  fit (AdaptiveQuerySampler.exploitation_sampler adaptive_example) X3
    (Some [0; 1; 1]%Z)
    = (Ok tt, AdaptiveQuerySampler.exploitation_sampler fitted) ∧
  let after := AdaptiveQuerySampler.select_samples fitted X6 in
  ((length X3 ≤ 50)%nat →
   after.1
     = (select_samples (AdaptiveQuerySampler.exploration_sampler fitted) X6).1
   ∧ AdaptiveQuerySampler.exploitation_sampler after.2
     = AdaptiveQuerySampler.exploitation_sampler fitted) ∧
  ((50 < length X3)%nat →
   after.1
     = (select_samples (AdaptiveQuerySampler.exploitation_sampler fitted) X6).1
   ∧ AdaptiveQuerySampler.exploration_sampler after.2
     = AdaptiveQuerySampler.exploration_sampler fitted).
Proof.
  intros fitted.
  apply (adaptive_routes_by_train_size adaptive_example fitted X3
           [0; 1; 1]%Z X6).
  reflexivity.
Defined.


(** ** RankedBatchSampler: outcomes, order of the picks, the cache *)

Section RankedBatchSampler_more.
Import RankedBatchSampler.
Variable metric : row → row → Q.

Local Ltac run :=
  unfold mbind, mret, M_bind, M_ret, lift, load, setitem, alloc; simpl.

(** X1. What a call on a weight array [w] ends in, whatever the batch size:
    [IndexError] when [w] has not one weight per row of [X]; [ValueError]
    when no row or every row has a weight above [-0.5] (there is no row to
    pick, or no labeled row to measure the distance to); a batch of
    [batch_size] indices otherwise. *)
Theorem select_samples_outcome b (X : matrix) (wloc : loc) (h : heap)
    (w : list Q) :
  h !! wloc = Some w →
  let outcome := (RankedBatchSampler.select_samples metric b X wloc h).1 in
  (length w ≠ length X → outcome = Raise IndexError) ∧
  (length w = length X →
   count_eligible w = 0%nat ∨ count_eligible w = length w →
   outcome = Raise ValueError) ∧
  (length w = length X → (0 < count_eligible w < length w)%nat →
   ∃ picks, outcome = Ok picks ∧ length picks = b).
Proof.
  intros Hw outcome. split_and!.
  - intros Hlen. unfold outcome, RankedBatchSampler.select_samples,
      after_picks, setup. run. rewrite Hw. simpl.
    unfold bool_index. rewrite length_map. by rewrite decide_False.
  - intros Hlen Hcount.
    pose proof (compress_unlabeled_length w X Hlen) as Hu.
    pose proof (compress_labeled_length w X Hlen) as Hl.
    unfold outcome, RankedBatchSampler.select_samples, after_picks, setup.
    run. rewrite Hw. simpl. unfold bool_index. rewrite !length_map.
    rewrite !decide_True by done. simpl.
    destruct (compress (map is_unlabeled w) X) as [|a A]; [done|].
    destruct (compress (map negb (map is_unlabeled w)) X) as [|r B]; [done|].
    simpl in *. lia.
  - intros Hlen Hcount.
    destruct (select_samples_total metric b X wloc h w Hw Hlen Hcount)
      as (picks & h' & Hss & Hlp & _).
    exists picks. unfold outcome. by rewrite Hss.
Qed.

Lemma run_iterations_add k1 k2 c f h :
  run_iterations metric (k1 + k2) c f h =
  match run_iterations metric k1 c f h with
  | (Ok f1, h1) => run_iterations metric k2 c f1 h1
  | (Raise e, h1) => (Raise e, h1)
  end.
Proof.
  revert f h. induction k1 as [|k1 IH]; intros f h; simpl; [done|].
  unfold mbind, M_bind.
  destruct (iteration metric c f h) as [[f1|e] h1]; [apply IH|done].
Qed.

(** X5. The batch is ranked: on an input that reaches the loop, the picks
    for a batch size are the first picks for any larger batch size. *)
Theorem select_samples_prefix b b' (X : matrix) (wloc : loc) (h : heap)
    (w : list Q) :
  h !! wloc = Some w →
  length w = length X →
  (0 < count_eligible w < length w)%nat →
  (b ≤ b')%nat →
  ∃ picks picks',
    (RankedBatchSampler.select_samples metric b X wloc h).1 = Ok picks ∧
    (RankedBatchSampler.select_samples metric b' X wloc h).1 = Ok picks' ∧
    picks `prefix_of` picks'.
Proof.
  intros Hw Hlen Hcount Hb.
  destruct (setup_spec metric X wloc h w Hw Hlen Hcount)
    as (c & f0 & Hs & Hinv & _ & _ & _ & _ & _ & _ & Hsel & _).
  destruct (run_iterations_spec metric b c f0 _ Hinv)
    as (f1 & h1 & picks1 & Hrun1 & Hinv1 & _ & _ & _ & _ & Hsel1 & _).
  destruct (run_iterations_spec metric (b' - b) c f1 h1 Hinv1)
    as (f2 & h2 & picks2 & Hrun2 & _ & _ & _ & _ & _ & Hsel2 & _).
  exists (selected_samples f1), (selected_samples f2).
  unfold RankedBatchSampler.select_samples, after_picks, mbind, M_bind.
  rewrite Hs. simpl. rewrite Hrun1. simpl.
  replace b' with (b + (b' - b))%nat at 1 by lia.
  rewrite run_iterations_add, Hrun1, Hrun2. simpl.
  split_and!; try done. rewrite Hsel2. by exists picks2.
Qed.

Lemma argmax_from_first (pre a : list Q) best ibest :
  pre !! ibest = Some best →
  (∀ q x, pre !! q = Some x → (x <= best)%Q) →
  (∀ q x, (q < ibest)%nat → pre !! q = Some x → (x < best)%Q) →
  first_best (pre ++ a) (argmax_from best ibest (length pre) a).
Proof.
  revert pre best ibest. induction a as [|x a IH];
    intros pre best ibest Hbest Hle Hlt; simpl.
  - rewrite app_nil_r. by exists best.
  - replace (pre ++ x :: a) with ((pre ++ [x]) ++ a)
      by (by rewrite <- app_assoc).
    replace (S (length pre)) with (length (pre ++ [x]))
      by (rewrite length_app; simpl; lia).
    destruct (Qle_bool x best) eqn:Hx.
    + apply Qle_bool_iff in Hx. apply IH.
      * by apply lookup_app_l_Some.
      * intros q y Hq. apply lookup_app_Some in Hq as [Hq|[_ Hq]].
        -- by eapply Hle.
        -- apply list_lookup_singleton_Some in Hq as [_ <-]. done.
      * intros q y Hqlt Hq.
        apply lookup_app_Some in Hq as [Hq|[Hge _]]; [by eapply Hlt|].
        apply lookup_lt_Some in Hbest. lia.
    + assert (Hgt : (best < x)%Q).
      { apply Qnot_le_lt. intros Hc. apply Qle_bool_iff in Hc. congruence. }
      apply IH.
      * rewrite lookup_app_r by lia. by rewrite Nat.sub_diag.
      * intros q y Hq. apply lookup_app_Some in Hq as [Hq|[_ Hq]].
        -- specialize (Hle q y Hq). lra.
        -- apply list_lookup_singleton_Some in Hq as [_ <-]. lra.
      * intros q y Hqlt Hq.
        apply lookup_app_Some in Hq as [Hq|[Hge _]]; [|lia].
        specialize (Hle q y Hq). lra.
Qed.

(** [argmax] returns the first position of the largest entry. *)
Lemma argmax_first (a : list Q) k : argmax a = Ok k → first_best a k.
Proof.
  destruct a as [|x a]; [done|]. simpl. intros [= <-].
  apply (argmax_from_first [x] a x 0).
  - done.
  - intros [|q] y Hq; simplify_eq/=. lra.
  - intros q y Hq. lia.
Qed.

(** Pass [k + 1] of the loop, from the variables after [k] passes. *)
Lemma after_picks_next k (X : matrix) (wloc : loc) (h : heap) (w : list Q) :
  h !! wloc = Some w →
  length w = length X →
  (0 < count_eligible w < length w)%nat →
  ∃ c f h' w' p idx x,
    after_picks metric k X wloc h = (Ok (c, f), h') ∧
    loop_invariant c f h' ∧
    h' !! samples_weights f = Some w' ∧
    argmax (scores c f w') = Ok p ∧
    compress (unlabeled_mask c) (index c) !! p = Some idx ∧
    RankedBatchSampler.X c !! idx = Some x ∧
    after_picks metric (S k) X wloc h =
      (Ok (c, {| samples_weights := samples_weights f;
                 similarity_scores :=
                   maximum (similarity_scores f)
                     (map similarity
                        (map (λ a, metric a x)
                           (compress (unlabeled_mask c)
                              (RankedBatchSampler.X c))));
                 n_unlabeled := n_unlabeled f - 1;
                 selected_samples := selected_samples f ++ [idx] |}),
       <[samples_weights f := <[idx := 0%Q]> w']> h').
Proof.
  intros Hw Hlen Hcount.
  destruct (setup_spec metric X wloc h w Hw Hlen Hcount)
    as (c & f0 & Hs & Hinv & _).
  destruct (run_iterations_spec metric k c f0 _ Hinv)
    as (f & h' & picks & Hrun & Hinv' & _).
  destruct (iteration_spec metric c f h' Hinv')
    as (w' & p & idx & x & Hw' & Hp & Hi & _ & Hx & _ & Hit).
  exists c, f, h', w', p, idx, x.
  replace (S k) with (k + 1)%nat by lia.
  unfold after_picks, mbind, M_bind. rewrite Hs. cbn [fst snd].
  rewrite run_iterations_add, Hrun. cbn [run_iterations].
  unfold mbind, M_bind. rewrite Hit. done.
Qed.

Lemma after_picks_inv k (X : matrix) (wloc : loc) (h : heap) c f h' :
  after_picks metric k X wloc h = (Ok (c, f), h') →
  ∃ f0 h0,
    setup metric X wloc h = (Ok (c, f0), h0) ∧
    run_iterations metric k c f0 h0 = (Ok f, h').
Proof.
  unfold after_picks, mbind, mret, M_bind, M_ret. intros Hap.
  destruct (setup metric X wloc h) as [[[c0 f0]|e] h0]; [|done].
  simpl in Hap.
  destruct (run_iterations metric k c0 f0 h0) as [[f'|e] h''] eqn:Hrun;
    [|done].
  injection Hap as -> -> ->. by exists f0, h0.
Qed.

(** X3. Every pass is greedy: the row it appends to the selection is the
    candidate with the largest score of that pass, and among candidates with
    that score the one with the lowest index. *)
Theorem pick_is_first_best k (X : matrix) (wloc : loc) (h : heap)
    (w : list Q) :
  h !! wloc = Some w →
  length w = length X →
  (0 < count_eligible w < length w)%nat →
  ∃ c f h' w' f1 h1 p idx,
    after_picks metric k X wloc h = (Ok (c, f), h') ∧
    h' !! samples_weights f = Some w' ∧
    after_picks metric (S k) X wloc h = (Ok (c, f1), h1) ∧
    selected_samples f1 = selected_samples f ++ [idx] ∧
    compress (map is_unlabeled w) (arange (length X)) !! p = Some idx ∧
    first_best (scores c f w') p.
Proof.
  intros Hw Hlen Hcount.
  destruct (setup_spec metric X wloc h w Hw Hlen Hcount)
    as (c0 & f0 & Hs & _ & HX & Hmask & _).
  destruct (after_picks_next k X wloc h w Hw Hlen Hcount)
    as (c & f & h' & w' & p & idx & x & Hap & Hinv & Hw' & Hp & Hi & Hx & Hnext).
  assert (c = c0) as ->.
  { destruct (after_picks_inv _ _ _ _ _ _ _ Hap) as (f0' & h0' & Hs' & _).
    congruence. }
  destruct Hinv as (_ & _ & _ & _ & Hidx & _).
  eexists c0, f, h', w', _, _, p, idx.
  split_and!; [done|done|exact Hnext|done| |by apply argmax_first].
  by rewrite <- Hmask, <- HX, <- Hidx.
Qed.

Lemma similarity_pos (d : Q) : (0 <= d)%Q → (0 < similarity d)%Q.
Proof.
  intros Hd. unfold similarity. apply Qlt_shift_div_l; lra.
Qed.

(** X4. For a distance that is never negative, every entry of the
    similarity cache lies in (0, 1] after any number of passes, and no entry
    decreases from one pass to the next. *)
Theorem similarity_cache_bounded_and_growing
    k (X : matrix) (wloc : loc) (h : heap) (w : list Q) :
  (∀ r s, 0 <= metric r s)%Q →
  h !! wloc = Some w →
  length w = length X →
  (0 < count_eligible w < length w)%nat →
  ∃ c f h' f1 h1,
    after_picks metric k X wloc h = (Ok (c, f), h') ∧
    after_picks metric (S k) X wloc h = (Ok (c, f1), h1) ∧
    Forall (λ s, (0 < s)%Q ∧ (s <= 1)%Q) (similarity_scores f) ∧
    Forall2 Qle (similarity_scores f) (similarity_scores f1).
Proof.
  intros Hpos Hw Hlen Hcount.
  destruct (setup_spec metric X wloc h w Hw Hlen Hcount)
    as (c0 & f0 & Hs & Hinv0 & _ & _ & _ & _ & _ & _ & _ & r & B & _ & Hsim).
  destruct (after_picks_next k X wloc h w Hw Hlen Hcount)
    as (c & f & h' & w' & p & idx & x & Hap & Hinv & Hw' & Hp & Hi & Hx & Hnext).
  assert (Hrun : c = c0 ∧
            run_iterations metric k c0 f0 (<[fresh (dom h) := w]> h)
            = (Ok f, h')).
  { destruct (after_picks_inv _ _ _ _ _ _ _ Hap) as (f0' & h0' & Hs' & Hrun).
    rewrite Hs in Hs'. by injection Hs' as <- <- <-. }
  destruct Hrun as [-> Hrun].
  eexists c0, f, h', _, _. split_and!; [done|exact Hnext| |].
  - eapply (run_iterations_preserves metric
              (λ f, Forall (λ s, (0 < s)%Q ∧ (s <= 1)%Q)
                      (similarity_scores f)) c0);
      [|exact Hinv0| |exact Hrun].
    + intros g hg g' hg' Hg HP Hit.
      destruct (iteration_spec metric c0 g hg Hg)
        as (wg & pg & ig & xg & _ & _ & _ & _ & _ & _ & Hit').
      rewrite Hit' in Hit. injection Hit as <- _. simpl.
      apply Forall_lookup. intros q y Hy. unfold maximum in Hy.
      rewrite lookup_zip_with in Hy.
      destruct (similarity_scores g !! q) as [s|] eqn:Hsq; [|done].
      simpl in Hy. rewrite !list_lookup_fmap in Hy.
      destruct (compress (unlabeled_mask c0) (RankedBatchSampler.X c0) !! q)
        as [a|]; [|done].
      simpl in Hy. injection Hy as <-.
      destruct (Forall_lookup_1 _ _ _ _ HP Hsq) as [Hs0 Hs1].
      split.
      * eapply Qlt_le_trans; [exact Hs0|apply Q.le_max_l].
      * apply Q.max_lub; [done|by apply similarity_le_1].
    + rewrite Hsim. apply Forall_fmap, Forall_fmap, Forall_forall.
      intros a _. simpl. split.
      * apply similarity_pos. by apply min_distance_nonneg.
      * apply similarity_le_1. by apply min_distance_nonneg.
  - simpl. destruct Hinv as (_ & _ & _ & _ & _ & _ & Hls & _).
    unfold maximum. revert Hls.
    generalize (compress (unlabeled_mask c0) (RankedBatchSampler.X c0)).
    generalize (similarity_scores f).
    induction l as [|s l IH]; intros [|a A] Hls; simplify_eq/=;
      constructor; [apply Q.le_max_l|by apply IH].
Qed.

End RankedBatchSampler_more.

Lemma pick_is_first_best_witness :
  ∃ c f h' w' f1 h1 p idx,
    RankedBatchSampler.after_picks euclidean_1d 1 X6 1%positive (store1 w6)
    = (Ok (c, f), h') ∧
    h' !! RankedBatchSampler.samples_weights f = Some w' ∧
    RankedBatchSampler.after_picks euclidean_1d 2 X6 1%positive (store1 w6)
    = (Ok (c, f1), h1) ∧
    RankedBatchSampler.selected_samples f1
    = RankedBatchSampler.selected_samples f ++ [idx] ∧
    compress (map RankedBatchSampler.is_unlabeled w6) (arange (length X6)) !! p
    = Some idx ∧
    RankedBatchSampler.first_best (RankedBatchSampler.scores c f w') p.
Proof.
  apply (pick_is_first_best euclidean_1d 1 X6 1%positive (store1 w6) w6);
    [reflexivity|reflexivity|simpl; lia].
Defined.

Lemma similarity_cache_bounded_and_growing_witness :
  ∃ c f h' f1 h1,
    RankedBatchSampler.after_picks euclidean_1d 1 X6 1%positive (store1 w6)
    = (Ok (c, f), h') ∧
    RankedBatchSampler.after_picks euclidean_1d 2 X6 1%positive (store1 w6)
    = (Ok (c, f1), h1) ∧
    Forall (λ s, (0 < s)%Q ∧ (s <= 1)%Q)
      (RankedBatchSampler.similarity_scores f) ∧
    Forall2 Qle (RankedBatchSampler.similarity_scores f)
      (RankedBatchSampler.similarity_scores f1).
Proof.
  apply (similarity_cache_bounded_and_growing euclidean_1d 1 X6 1%positive
           (store1 w6) w6);
    [exact euclidean_1d_nonneg|reflexivity|reflexivity|simpl; lia].
Defined.

Lemma select_samples_outcome_witness :
  let outcome :=
    (RankedBatchSampler.select_samples euclidean_1d 2 X6 1%positive
       (store1 w6)).1 in
  (length w6 ≠ length X6 → outcome = Raise IndexError) ∧
  (length w6 = length X6 →
   RankedBatchSampler.count_eligible w6 = 0%nat
   ∨ RankedBatchSampler.count_eligible w6 = length w6 →
   outcome = Raise ValueError) ∧
  (length w6 = length X6 →
   (0 < RankedBatchSampler.count_eligible w6 < length w6)%nat →
   ∃ picks, outcome = Ok picks ∧ length picks = 2%nat).
Proof.
  apply (select_samples_outcome euclidean_1d 2 X6 1%positive (store1 w6) w6).
  reflexivity.
Defined.

Lemma select_samples_prefix_witness :
  ∃ picks picks',
    (RankedBatchSampler.select_samples euclidean_1d 1 X6 1%positive
       (store1 w6)).1 = Ok picks ∧
    (RankedBatchSampler.select_samples euclidean_1d 3 X6 1%positive
       (store1 w6)).1 = Ok picks' ∧
    picks `prefix_of` picks'.
Proof.
  apply (select_samples_prefix euclidean_1d 1 3 X6 1%positive (store1 w6) w6);
    [reflexivity|reflexivity|simpl; lia|lia].
Defined.

(** ** ScoredQuerySampler: the edges of ['top'] *)

Section ScoredQuerySampler_more.
Import ScoredQuerySampler.
Variable rng : Type.
Variable choice : rng → list nat → nat → list Q → result (list nat) * rng.
Variable score_samples : matrix → result (list Q).
Variable argsort : list Q → list nat.

(** X6. With the strategy ['top'], a batch size of 0 and a batch size of at
    least the number of samples both make [select_samples] return every
    sample once (an argsort holds every index once): the slice [[-0:]] is
    the whole array, and a slice that starts before the array is clipped,
    so nothing is raised for a batch that cannot be filled. *)
Theorem top_strategy_returns_every_sample
    (self : t rng) (X : matrix) (scores : list Q) :
  (∀ a, argsort a ≡ₚ seq 0 (length a)) →
  strategy rng self = "top" →
  score_samples X = Ok scores →
  batch_size rng self = 0%nat ∨ (length scores ≤ batch_size rng self)%nat →
  ∃ picks,
    (select_samples rng choice score_samples argsort self X).1 = Ok picks ∧
    picks ≡ₚ seq 0 (length scores).
Proof.
  intros Hperm Hstrat Hscores Hb.
  exists (argsort scores). split; [|apply Hperm].
  unfold select_samples. rewrite Hscores. simpl. rewrite Hstrat. simpl.
  f_equal. unfold top, slice_from.
  assert (Hlen : length (argsort scores) = length scores).
  { by rewrite Hperm, length_seq. }
  rewrite Hlen. destruct Hb as [->|Hb].
  - simpl. by rewrite Z.min_l by lia.
  - destruct (- Z.of_nat (batch_size rng self) <? 0)%Z eqn:Hneg.
    + by replace (Z.to_nat (Z.max (Z.of_nat (length scores)
                                   + - Z.of_nat (batch_size rng self)) 0))
        with 0%nat by lia.
    + apply Z.ltb_ge in Hneg.
      by replace (Z.to_nat (Z.min (- Z.of_nat (batch_size rng self))
                              (Z.of_nat (length scores))))
        with 0%nat by lia.
Qed.

(** X7. With the strategy ['top'], for an [np.argsort] that does what numpy
    promises of it, the batch comes in ascending order of score, whatever
    the batch size, and its last index is that of a largest score of the
    whole score vector.  Nothing is said of the order of equal scores. *)
Theorem top_strategy_ascending
    (self : t rng) (X : matrix) (scores : list Q) :
  sorts_ascending argsort →
  strategy rng self = "top" →
  score_samples X = Ok scores →
  ∃ picks,
    (select_samples rng choice score_samples argsort self X).1 = Ok picks ∧
    StronglySorted (λ i j, (score_of scores i <= score_of scores j)%Q)
      picks ∧
    ∀ i, last picks = Some i →
         ∀ j, (j < length scores)%nat →
              (score_of scores j <= score_of scores i)%Q.
Proof.
  intros Hsorts Hstrat Hscores.
  exists (top argsort (batch_size rng self) scores).
  unfold select_samples. rewrite Hscores. simpl. rewrite Hstrat. simpl.
  split; [done|].
  destruct (Hsorts scores) as [Hperm Hsorted].
  unfold top, slice_from.
  set (d := Z.to_nat _). split.
  - rewrite <- (take_drop d (argsort scores)) in Hsorted.
    by eapply StronglySorted_app_r.
  - intros i Hlast j Hj.
    assert (Hlast' : last (argsort scores) = Some i).
    { rewrite <- (take_drop d (argsort scores)), last_app. by rewrite Hlast. }
    apply last_Some in Hlast' as [init Hinit].
    assert (Hin : j ∈ argsort scores).
    { rewrite Hperm. apply elem_of_seq. lia. }
    rewrite Hinit in Hin, Hsorted.
    apply elem_of_app in Hin as [Hin|Hin].
    + apply (StronglySorted_app_cross
               (λ i j, (score_of scores i <= score_of scores j)%Q)
               init [i] j i Hsorted Hin).
      left.
    + apply list_elem_of_singleton in Hin as ->. apply Qle_refl.
Qed.

End ScoredQuerySampler_more.

Lemma top_strategy_returns_every_sample_witness :
  ∃ picks,
    (ScoredQuerySampler.select_samples unit choice_first score_row_sum
       insertion_argsort (scored_sampler 5 "top") X_tie).1 = Ok picks ∧
    picks ≡ₚ seq 0 (length (map sum X_tie)).
Proof.
  apply (top_strategy_returns_every_sample unit choice_first score_row_sum
           insertion_argsort (scored_sampler 5 "top") X_tie (map sum X_tie));
    [intros a; apply insertion_argsort_sorts|reflexivity|reflexivity
    |right; simpl; lia].
Defined.

Lemma top_strategy_ascending_witness :
  ∃ picks,
    (ScoredQuerySampler.select_samples unit choice_first score_row_sum
       insertion_argsort (scored_sampler 1 "top") X_tie).1 = Ok picks ∧
    StronglySorted
      (λ i j, (score_of (map sum X_tie) i <= score_of (map sum X_tie) j)%Q)
      picks ∧
    ∀ i, last picks = Some i →
         ∀ j, (j < length (map sum X_tie))%nat →
              (score_of (map sum X_tie) j <= score_of (map sum X_tie) i)%Q.
Proof.
  apply (top_strategy_ascending unit choice_first score_row_sum
           insertion_argsort (scored_sampler 1 "top") X_tie (map sum X_tie));
    [exact insertion_argsort_sorts|reflexivity|reflexivity].
Defined.

(** ** ChainQuerySampler: order, missing methods, longer chains *)

Section ChainQuerySampler_more.

Lemma chain_step_sublist X sampler selected selected' sampler' :
  predicts_masks sampler →
  ChainQuerySampler.chain_step X sampler selected = (Ok selected', sampler') →
  selected' `sublist_of` selected.
Proof.
  unfold ChainQuerySampler.chain_step, ChainQuerySampler.member_fit,
    ChainQuerySampler.member_predict.
  intros Hmasks Hstep.
  destruct (@fit _ (ChainQuerySampler.methods sampler)
              (ChainQuerySampler.self sampler) X None) as [[[]|e] s1];
    [|done].
  simpl in Hstep.
  destruct (@predict _ (ChainQuerySampler.methods sampler))
    as [method|] eqn:Hm; [|done].
  destruct (take X selected) as [X_selected|e]; [|done].
  destruct (method s1 X_selected) as [[r|e] s2] eqn:Hp; [|done].
  destruct (Hmasks method s1 s2 X_selected r Hm Hp) as [mask ->].
  injection Hstep as Hidx _. simpl in Hidx. unfold bool_index in Hidx.
  case_decide; [|done]. injection Hidx as <-. apply compress_sublist.
Qed.

Lemma chain_loop_sublist X rest selected picks rest' :
  Forall predicts_masks rest →
  ChainQuerySampler.chain_loop X rest selected = (Ok picks, rest') →
  picks `sublist_of` selected.
Proof.
  intros Hall. revert selected picks rest'.
  induction Hall as [|sampler rest Hm Hall IH]; intros selected picks rest' Hl;
    simpl in Hl.
  - by injection Hl as <- _.
  - destruct (ChainQuerySampler.chain_step X sampler selected)
      as [[selected'|e] sampler'] eqn:Hstep; [|done].
    destruct (ChainQuerySampler.chain_loop X rest selected') as [r rest''] eqn:Hrest.
    injection Hl as -> _.
    etrans; [by eapply IH|by eapply chain_step_sublist].
Qed.

(** X10. When every sampler after the first answers [predict] with boolean
    masks, the chain only filters: what it returns is the first sampler's
    selection with some entries left out, in the same order; it is no longer
    than that selection and repeats no index that the selection does not
    repeat. *)
Theorem chain_of_masks_filters_in_order
    (first : ChainQuerySampler.member) (rest : list ChainQuerySampler.member) (X : matrix) picks sampler_list' :
  Forall predicts_masks rest →
  ChainQuerySampler.select_samples (first :: rest) X = (Ok picks, sampler_list') →
  ∃ selected first',
    ChainQuerySampler.member_select_samples first X = (Ok selected, first') ∧
    picks `sublist_of` selected ∧
    (length picks ≤ length selected)%nat ∧
    (NoDup selected → NoDup picks).
Proof.
  intros Hall Hsel. simpl in Hsel.
  destruct (ChainQuerySampler.member_select_samples first X) as [[selected|e] first'] eqn:Hf;
    [|done].
  destruct (ChainQuerySampler.chain_loop X rest selected) as [r rest'] eqn:Hloop.
  injection Hsel as -> _.
  pose proof (chain_loop_sublist _ _ _ _ _ Hall Hloop) as Hsub.
  exists selected, first'. split_and!; [done|done|by apply sublist_length|].
  intros Hnd. by eapply sublist_NoDup.
Qed.

(** X11. A sampler whose class has no [predict] method, as is the case of
    [BaseQuerySampler] and of [ScoredQuerySampler], cannot stand second in a
    chain: once the first sampler has selected rows of [X] and the second
    has been fitted on [X], [ChainQuerySampler.select_samples] raises [AttributeError]; the
    samplers after the second are left as they were. *)
Theorem chain_needs_predict
    (first second : ChainQuerySampler.member)
    (rest : list ChainQuerySampler.member) (X : matrix)
    selected first' X_selected second' :
  lacks_predict second →
  ChainQuerySampler.member_select_samples first X = (Ok selected, first') →
  take X selected = Ok X_selected →
  ChainQuerySampler.member_fit second X None = (Ok tt, second') →
  ChainQuerySampler.select_samples (first :: second :: rest) X
  = (Raise AttributeError, first' :: second' :: rest).
Proof.
  intros Hlacks Hfirst Htake Hfit. simpl. rewrite Hfirst.
  unfold ChainQuerySampler.chain_step. rewrite Hfit.
  unfold ChainQuerySampler.member_fit in Hfit.
  destruct (@fit _ (ChainQuerySampler.methods second)
              (ChainQuerySampler.self second) X None) as [r s1].
  injection Hfit as _ <-.
  unfold ChainQuerySampler.member_predict. simpl.
  unfold lacks_predict in Hlacks. by rewrite Hlacks.
Qed.

Lemma chain_loop_app X (l1 l2 : list ChainQuerySampler.member) selected :
  ChainQuerySampler.chain_loop X (l1 ++ l2) selected =
  match ChainQuerySampler.chain_loop X l1 selected with
  | (Ok selected', l1') =>
      let '(r, l2') := ChainQuerySampler.chain_loop X l2 selected' in (r, l1' ++ l2')
  | (Raise e, l1') => (Raise e, l1' ++ l2)
  end.
Proof.
  revert selected. induction l1 as [|sampler l1 IH]; intros selected; simpl.
  - by destruct (ChainQuerySampler.chain_loop X l2 selected).
  - destruct (ChainQuerySampler.chain_step X sampler selected) as [[selected'|e] sampler'];
      [|done].
    rewrite IH.
    destruct (ChainQuerySampler.chain_loop X l1 selected') as [[selected''|e] l1']; [|done].
    by destruct (ChainQuerySampler.chain_loop X l2 selected'').
Qed.

(** X12. Appending samplers to a chain: when the chain raises, the longer
    chain raises the same exception and the appended samplers are not
    touched; when it returns a selection, the longer chain runs the appended
    samplers on that selection. *)
Theorem chain_append
    (sampler_list post : list ChainQuerySampler.member) (X : matrix) :
  sampler_list ≠ [] →
  (∀ e sampler_list',
     ChainQuerySampler.select_samples sampler_list X = (Raise e, sampler_list') →
     ChainQuerySampler.select_samples (sampler_list ++ post) X
     = (Raise e, sampler_list' ++ post)) ∧
  (∀ picks sampler_list',
     ChainQuerySampler.select_samples sampler_list X = (Ok picks, sampler_list') →
     ChainQuerySampler.select_samples (sampler_list ++ post) X
     = (let '(r, post') := ChainQuerySampler.chain_loop X post picks in
        (r, sampler_list' ++ post'))).
Proof.
  intros Hne. destruct sampler_list as [|first rest]; [done|]. simpl.
  destruct (ChainQuerySampler.member_select_samples first X) as [[selected|e] first'].
  - rewrite chain_loop_app.
    destruct (ChainQuerySampler.chain_loop X rest selected) as [[selected'|e] rest'].
    + split; [done|]. intros picks l' [= <- <-].
      by destruct (ChainQuerySampler.chain_loop X post selected').
    + split; [|done]. by intros e' l' [= <- <-].
  - split; [|done]. by intros e' l' [= <- <-].
Qed.

End ChainQuerySampler_more.

Lemma recording_member_predicts_masks n : predicts_masks (recording_member n).
Proof. intros method s s' X r [= <-] [= <- _]. by eexists. Qed.

Lemma scored_member_lacks_predict b strategy :
  lacks_predict (scored_member b strategy).
Proof. reflexivity. Qed.

Lemma chain_of_masks_filters_in_order_witness :
  ∃ selected first',
    ChainQuerySampler.member_select_samples first_row_member X3
    = (Ok selected, first') ∧
    [0%Z] `sublist_of` selected ∧
    (length [0%Z] ≤ length selected)%nat ∧
    (NoDup selected → NoDup [0%Z]).
Proof.
  apply (chain_of_masks_filters_in_order first_row_member
           [recording_member None] X3 [0%Z]
           [first_row_member; recording_member (Some 3%nat)]);
    [|reflexivity].
  constructor; [exact (recording_member_predicts_masks None)|constructor].
Defined.

Lemma chain_needs_predict_witness :
  ChainQuerySampler.select_samples
    [first_row_member; scored_member 1 "top"; recording_member None] X3
  = (Raise AttributeError,
     [first_row_member; scored_member 1 "top"; recording_member None]).
Proof.
  apply (chain_needs_predict first_row_member (scored_member 1 "top")
           [recording_member None] X3 [0%Z] first_row_member [[0%Q]]
           (scored_member 1 "top"));
    [exact (scored_member_lacks_predict 1 "top")|reflexivity|reflexivity
    |reflexivity].
Defined.

Lemma chain_append_witness :
  (∀ e sampler_list',
     ChainQuerySampler.select_samples [first_row_member] X3
     = (Raise e, sampler_list') →
     ChainQuerySampler.select_samples
       ([first_row_member] ++ [recording_member None]) X3
     = (Raise e, sampler_list' ++ [recording_member None])) ∧
  (∀ picks sampler_list',
     ChainQuerySampler.select_samples [first_row_member] X3
     = (Ok picks, sampler_list') →
     ChainQuerySampler.select_samples
       ([first_row_member] ++ [recording_member None]) X3
     = (let '(r, post') :=
          ChainQuerySampler.chain_loop X3 [recording_member None] picks in
        (r, sampler_list' ++ post'))).
Proof.
  apply (chain_append [first_row_member] [recording_member None] X3). done.
Defined.

(** ** The labeling loop *)

Lemma take_length {A} (a : list A) (idx : list Z) r :
  take a idx = Ok r → length r = length idx.
Proof.
  revert r. induction idx as [|i idx IH]; intros r Htake; simpl in *.
  - by injection Htake as <-.
  - unfold mbind, result_bind in Htake.
    destruct (normalize_index (length a) i) as [k|e]; [|done].
    destruct (getitem a k) as [x|e]; [|done].
    destruct (take a idx) as [r'|e]; [|done].
    injection Htake as <-. simpl. by rewrite (IH r').
Qed.

(** Taking the same positions of two arrays that are related entry by entry
    gives related results. *)
Lemma take_Forall2 {A B} (R : A → B → Prop) (a : list A) (b : list B)
    (idx : list Z) ra :
  Forall2 R a b → take a idx = Ok ra →
  ∃ rb, take b idx = Ok rb ∧ Forall2 R ra rb.
Proof.
  intros Hab. revert ra. induction idx as [|i idx IH]; intros ra Htake;
    simpl in *.
  - injection Htake as <-. by exists [].
  - unfold mbind, result_bind in *.
    rewrite <- (Forall2_length _ _ _ Hab).
    destruct (normalize_index (length a) i) as [k|e]; [|done].
    unfold getitem in *.
    destruct (a !! k) as [x|] eqn:Hx; [|done].
    destruct (take a idx) as [ra'|e]; [|done].
    injection Htake as <-.
    destruct (Forall2_lookup_l _ _ _ _ _ Hab Hx) as (y & Hy & Hxy).
    destruct (IH ra' eq_refl) as (rb' & -> & Hrest).
    rewrite Hy. exists (y :: rb'). split; [done|by constructor].
Qed.

Lemma take_nonneg {A} (a : list A) (idx : list Z) r :
  Forall (λ i, (0 ≤ i)%Z) idx → take a idx = Ok r →
  Forall2 (λ i x, a !! Z.to_nat i = Some x) idx r.
Proof.
  intros Hall. revert r. induction Hall as [|i idx Hi Hall IH];
    intros r Htake; simpl in *.
  - injection Htake as <-. constructor.
  - unfold mbind, result_bind in Htake. unfold normalize_index in Htake.
    destruct (decide (0 ≤ i < Z.of_nat (length a))%Z).
    + unfold getitem in Htake.
      destruct (a !! Z.to_nat i) as [x|] eqn:Hx; [|done].
      destruct (take a idx) as [r'|e]; [|done].
      injection Htake as <-. constructor; [done|by apply IH].
    + destruct (decide (- Z.of_nat (length a) ≤ i < 0)%Z); [lia|done].
Qed.

Lemma compress_seq_rows {A} (mask : list bool) (a : list A) s :
  length mask = length a →
  Forall2 (λ i x, ∃ j, i = (s + j)%nat ∧ a !! j = Some x
                       ∧ mask !! j = Some true)
    (compress mask (seq s (length a))) (compress mask a).
Proof.
  revert a s. induction mask as [|b mask IH]; intros [|x a] s Hlen;
    simplify_eq/=; [constructor|].
  assert (Hrest : Forall2 (λ i y, ∃ j, i = (s + j)%nat
                                       ∧ (x :: a) !! j = Some y
                                       ∧ (b :: mask) !! j = Some true)
                   (compress mask (seq (S s) (length a))) (compress mask a)).
  { eapply Forall2_impl; [apply (IH a (S s) Hlen)|].
    intros i y (j & -> & Hj & Hm). exists (S j). split; [lia|done]. }
  destruct b; [|done]. constructor; [|done].
  exists 0%nat. split; [lia|done].
Qed.

Section ActiveLearning_loop.
Import ActiveLearning.
Context {S : Type} `{!QuerySampler S}.

Lemma set_true_length (mask : list bool) (idx : list nat) : length (set_true mask idx) = length mask.
Proof.
  revert mask. induction idx as [|i idx IH]; intros mask; simpl; [done|].
  unfold set_true in *. simpl. by rewrite IH, length_insert.
Qed.

Lemma set_true_lookup (mask : list bool) (idx : list nat) (i : nat) :
  Forall (λ k, (k < length mask)%nat) idx →
  set_true mask idx !! i = Some true ↔ mask !! i = Some true ∨ i ∈ idx.
Proof.
  revert mask. induction idx as [|k idx IH]; intros mask Hall.
  - simpl. split; [by left|]. intros [?|Hin]; [done|by inversion Hin].
  - apply Forall_cons in Hall as [Hk Hall]. unfold set_true in *. simpl.
    rewrite IH by (by rewrite length_insert).
    destruct (decide (i = k)) as [->|Hne].
    + rewrite list_lookup_insert_eq by done. split; [|by left].
      intros _. right. left.
    + rewrite list_lookup_insert_ne by done. split.
      * intros [?|?]; [by left|right; by right].
      * intros [?|Hin]; [by left|].
        apply elem_of_cons in Hin as [?|?]; [done|by right].
Qed.

Lemma count_true_insert (mask : list bool) (i : nat) (b : bool) :
  mask !! i = Some b →
  count_true (<[i := true]> mask)
  = ((if b then 0 else 1) + count_true mask)%nat.
Proof.
  revert i. induction mask as [|b' mask IH]; intros [|i] Hi; simplify_eq/=.
  - by destruct b.
  - rewrite (IH i Hi). destruct b, b'; lia.
Qed.

Lemma set_true_count (mask : list bool) (idx : list nat) :
  Forall (λ k, (k < length mask)%nat) idx →
  (count_true mask ≤ count_true (set_true mask idx)
   ≤ count_true mask + length idx)%nat ∧
  (NoDup idx → Forall (λ k, mask !! k = Some false) idx →
   count_true (set_true mask idx) = (count_true mask + length idx)%nat).
Proof.
  revert mask. induction idx as [|k idx IH]; intros mask Hall.
  - simpl. split; [lia|]. intros _ _. lia.
  - apply Forall_cons in Hall as [Hk Hall]. unfold set_true in *. simpl.
    destruct (lookup_lt_is_Some_2 _ _ Hk) as [b Hb].
    pose proof (count_true_insert mask k b Hb) as Hc.
    destruct (IH (<[k := true]> mask)) as [Hbound Heq];
      [by rewrite length_insert|].
    split; [destruct b; lia|].
    intros Hnd Hfalse. apply NoDup_cons in Hnd as [Hnotin Hnd].
    apply Forall_cons in Hfalse as [Hkf Hfalse].
    assert (b = false) as -> by congruence.
    rewrite Heq; [lia|done|].
    rewrite Forall_forall in Hfalse. apply Forall_forall. intros j Hj.
    rewrite list_lookup_insert_ne; [by apply Hfalse|].
    intros ->. done.
Qed.

Lemma labeling_step_inv X_train y_train (sampler sampler' : S) mask mask' :
  labeling_step X_train y_train sampler mask = (Ok mask', sampler') →
  ∃ fitted selected picked,
    length mask = length X_train ∧
    fit sampler (compress mask X_train) (Some (compress mask y_train))
    = (Ok tt, fitted) ∧
    select_samples fitted (compress (map negb mask) X_train)
    = (Ok selected, sampler') ∧
    take (compress (map negb mask) (seq 0 (length X_train))) selected
    = Ok picked ∧
    mask' = set_true mask picked.
Proof.
  unfold labeling_step. intros Hstep.
  unfold bool_index in Hstep at 1.
  destruct (decide (length mask = length X_train)) as [Hlen|]; [|done].
  unfold bool_index in Hstep at 1.
  destruct (decide (length mask = length y_train)) as [Hleny|]; [|done].
  destruct (fit sampler (compress mask X_train)
              (Some (compress mask y_train))) as [[[]|e] fitted] eqn:Hf;
    [|done].
  unfold bool_index in Hstep. rewrite length_map in Hstep.
  rewrite decide_True in Hstep by done.
  destruct (select_samples fitted (compress (map negb mask) X_train))
    as [[selected|e] s'] eqn:Hsel; [|done].
  injection Hstep as Hmark <-.
  unfold mark_selected, bool_index, arange in Hmark.
  rewrite length_map, length_seq in Hmark.
  rewrite decide_True in Hmark by done. simpl in Hmark.
  unfold mbind, result_bind in Hmark.
  destruct (take (compress (map negb mask) (seq 0 (length X_train))) selected)
    as [picked|e] eqn:Htake; [|done].
  injection Hmark as <-.
  by exists fitted, selected, picked.
Qed.

(** The unlabeled sample number [k] is the entry at position [k] of
    [indices[~mask]]. *)
Lemma pool_lookup (mask : list bool) n k i :
  length mask = n →
  compress (map negb mask) (seq 0 n) !! k = Some i →
  kth_unlabeled mask k i.
Proof.
  intros <-. unfold kth_unlabeled.
  assert (Hgen : ∀ s, compress (map negb mask) (seq s (length mask)) !! k
                      = Some i →
                      ∃ j, i = (s + j)%nat ∧ mask !! j = Some false ∧
                           count_true (map negb (firstn j mask)) = k).
  { revert k. induction mask as [|b mask IH]; intros k s Hk; [done|].
    destruct b; simpl in Hk.
    - destruct (IH k (Datatypes.S s) Hk) as (j & -> & Hj & Hc).
      exists (Datatypes.S j). split; [lia|]. split; [done|]. simpl. done.
    - destruct k as [|k]; simpl in Hk.
      + injection Hk as <-. exists 0%nat. split; [lia|done].
      + destruct (IH k (Datatypes.S s) Hk) as (j & -> & Hj & Hc).
        exists (Datatypes.S j). split; [lia|]. split; [done|]. simpl. by rewrite Hc. }
  intros Hk. destruct (Hgen 0%nat Hk) as (j & -> & Hj & Hc). done.
Qed.

Lemma take_positions {A} (a : list A) (idx : list Z) r :
  take a idx = Ok r →
  Forall2 (λ s x, ∃ k, normalize_index (length a) s = Ok k ∧ a !! k = Some x)
    idx r.
Proof.
  revert r. induction idx as [|i idx IH]; intros r Htake; simpl in *.
  - injection Htake as <-. constructor.
  - unfold mbind, result_bind in Htake.
    destruct (normalize_index (length a) i) as [k|e] eqn:Hk; [|done].
    unfold getitem in Htake.
    destruct (a !! k) as [x|] eqn:Hx; [|done].
    destruct (take a idx) as [r'|e]; [|done].
    injection Htake as <-. constructor; [by exists k|by apply IH].
Qed.

(** X13. One turn of the labeling loop, when it raises nothing: the sampler
    is fitted on the labeled samples and their labels and then asked to
    select among the unlabeled samples; each index it returns names one
    unlabeled sample, by its number among the unlabeled samples (the row it
    was shown at that index is that sample's row of [X_train]); the mask
    keeps its length, and a sample is labeled afterwards exactly when it
    was labeled before or is one of the samples so named. *)
Theorem labeling_step_labels_selected_rows
    X_train y_train (sampler sampler' : S) mask mask' :
  labeling_step X_train y_train sampler mask = (Ok mask', sampler') →
  ∃ fitted selected rows picked,
    fit sampler (compress mask X_train) (Some (compress mask y_train))
    = (Ok tt, fitted) ∧
    select_samples fitted (compress (map negb mask) X_train)
    = (Ok selected, sampler') ∧
    Forall2 (names_sample mask) selected picked ∧
    take (compress (map negb mask) X_train) selected = Ok rows ∧
    Forall2 (λ i r, X_train !! i = Some r) picked rows ∧
    length mask' = length mask ∧
    ∀ i, mask' !! i = Some true ↔ mask !! i = Some true ∨ i ∈ picked.
Proof.
  intros Hstep.
  destruct (labeling_step_inv _ _ _ _ _ _ Hstep)
    as (fitted & selected & picked & Hlen & Hfit & Hsel & Htake & ->).
  set (pool := compress (map negb mask) (seq 0 (length X_train))) in *.
  assert (Hpl : length pool = count_true (map negb mask)).
  { unfold pool. rewrite <- Hlen. clear. generalize 0%nat.
    induction mask as [|b mask IH]; intros s; simpl; [done|].
    destruct b; simpl; by rewrite IH. }
  assert (Hrel : Forall2 (λ i r, X_train !! i = Some r) pool
                   (compress (map negb mask) X_train)).
  { eapply Forall2_impl;
      [apply (compress_seq_rows (map negb mask) X_train 0);
       by rewrite length_map|].
    intros i r (j & -> & Hj & _). done. }
  destruct (take_Forall2 _ _ _ _ _ Hrel Htake) as (rows & Hrows & Hpr).
  pose proof (take_positions _ _ _ Htake) as Hpos.
  exists fitted, selected, rows, picked.
  split_and!; [done|done| |done|done|apply set_true_length|].
  - eapply Forall2_impl; [exact Hpos|].
    intros s i (k & Hk & Hi). exists k. rewrite <- Hpl. split; [done|].
    by apply (pool_lookup mask (length X_train)).
  - intros i. apply set_true_lookup.
    apply Forall_forall. intros k Hk.
    apply list_elem_of_lookup in Hk as [q Hq].
    destruct (Forall2_lookup_l _ _ _ _ _ Hpr Hq) as (r & _ & Hr).
    rewrite Hlen. by eapply lookup_lt_Some.
Qed.

(** X14. One turn of the labeling loop, when it raises nothing, with the
    sampler fitted on the labeled samples and asked to select among the
    unlabeled ones: the mask keeps its length, no labeled sample is
    unlabeled, and at most as many samples are newly labeled as the sampler
    returned indices — exactly that many when the indices are distinct and
    not negative. *)
Theorem labeling_step_count
    X_train y_train (sampler sampler' : S) mask mask' :
  labeling_step X_train y_train sampler mask = (Ok mask', sampler') →
  ∃ fitted selected,
    fit sampler (compress mask X_train) (Some (compress mask y_train))
    = (Ok tt, fitted) ∧
    select_samples fitted (compress (map negb mask) X_train)
    = (Ok selected, sampler') ∧
    length mask' = length mask ∧
    (∀ i, mask !! i = Some true → mask' !! i = Some true) ∧
    (count_true mask' ≤ count_true mask + length selected)%nat ∧
    (NoDup selected → Forall (λ s, (0 ≤ s)%Z) selected →
     count_true mask' = (count_true mask + length selected)%nat).
Proof.
  intros Hstep.
  destruct (labeling_step_inv _ _ _ _ _ _ Hstep)
    as (fitted & selected & picked & Hlen & Hfit & Hsel & Htake & ->).
  pose proof (take_length _ _ _ Htake) as Hlp.
  set (pool := compress (map negb mask) (seq 0 (length X_train))) in *.
  assert (Hpool : ∀ q i, pool !! q = Some i →
                         (i < length mask)%nat ∧ mask !! i = Some false).
  { intros q i Hq. unfold pool in Hq.
    destruct (compress_lookup_seq (map negb mask) X_train 0 q i)
      as (j & -> & Hj & _); [by rewrite length_map|done|].
    simpl. rewrite list_lookup_fmap in Hj.
    destruct (mask !! j) as [[]|] eqn:Hm; simplify_eq/=.
    split; [by eapply lookup_lt_Some|done]. }
  assert (Hin : ∀ i, i ∈ picked → ∃ q, pool !! q = Some i).
  { intros i Hi. apply list_elem_of_lookup. by eapply take_elem. }
  assert (Hrange : Forall (λ k, (k < length mask)%nat) picked).
  { apply Forall_forall. intros i Hi. destruct (Hin i Hi) as [q Hq].
    by destruct (Hpool q i Hq). }
  destruct (set_true_count mask picked Hrange) as [Hbound Heq].
  exists fitted, selected. rewrite <- Hlp.
  split_and!; [done|done|apply set_true_length| |lia|].
  { intros i Hi. apply set_true_lookup; [done|by left]. }
  intros Hnd Hnonneg. apply Heq.
  - pose proof (take_nonneg _ _ _ Hnonneg Htake) as Hsp.
    assert (Hpnd : NoDup pool).
    { unfold pool. eapply sublist_NoDup; [|apply compress_sublist].
      apply NoDup_seq. }
    apply NoDup_alt. intros a b i Ha Hb.
    destruct (Forall2_lookup_r _ _ _ _ _ Hsp Ha) as (sa & Hsa & Hpa).
    destruct (Forall2_lookup_r _ _ _ _ _ Hsp Hb) as (sb & Hsb & Hpb).
    assert (Z.to_nat sa = Z.to_nat sb)
      by exact (NoDup_lookup _ _ _ _ Hpnd Hpa Hpb).
    assert (sa = sb).
    { rewrite Forall_forall in Hnonneg.
      pose proof (Hnonneg sa (list_elem_of_lookup_2 _ _ _ Hsa)).
      pose proof (Hnonneg sb (list_elem_of_lookup_2 _ _ _ Hsb)). lia. }
    subst sb. exact (NoDup_lookup _ _ _ _ Hnd Hsa Hsb).
  - apply Forall_forall. intros i Hi. destruct (Hin i Hi) as [q Hq].
    by destruct (Hpool q i Hq).
Qed.

End ActiveLearning_loop.

Lemma labeling_step_labels_selected_rows_witness :
  ∃ fitted selected rows picked,
    fit {| RecordingSampler.fitted_rows := None |}
      (compress mask3 X3) (Some (compress mask3 y3)) = (Ok tt, fitted) ∧
    select_samples fitted (compress (map negb mask3) X3)
    = (Ok selected, {| RecordingSampler.fitted_rows := Some 1%nat |}) ∧
    Forall2 (ActiveLearning.names_sample mask3) selected picked ∧
    take (compress (map negb mask3) X3) selected = Ok rows ∧
    Forall2 (λ i r, X3 !! i = Some r) picked rows ∧
    length [true; true; true] = length mask3 ∧
    ∀ i, [true; true; true] !! i = Some true
         ↔ mask3 !! i = Some true ∨ i ∈ picked.
Proof.
  apply (labeling_step_labels_selected_rows X3 y3
           {| RecordingSampler.fitted_rows := None |}
           {| RecordingSampler.fitted_rows := Some 1%nat |}
           mask3 [true; true; true]).
  reflexivity.
Defined.

Lemma labeling_step_count_witness :
  ∃ fitted selected,
    fit {| RecordingSampler.fitted_rows := None |}
      (compress mask3 X3) (Some (compress mask3 y3)) = (Ok tt, fitted) ∧
    select_samples fitted (compress (map negb mask3) X3)
    = (Ok selected, {| RecordingSampler.fitted_rows := Some 1%nat |}) ∧
    length [true; true; true] = length mask3 ∧
    (∀ i, mask3 !! i = Some true → [true; true; true] !! i = Some true) ∧
    (ActiveLearning.count_true [true; true; true]
     ≤ ActiveLearning.count_true mask3 + length selected)%nat ∧
    (NoDup selected → Forall (λ s, (0 ≤ s)%Z) selected →
     ActiveLearning.count_true [true; true; true]
     = (ActiveLearning.count_true mask3 + length selected)%nat).
Proof.
  apply (labeling_step_count X3 y3
           {| RecordingSampler.fitted_rows := None |}
           {| RecordingSampler.fitted_rows := Some 1%nat |}
           mask3 [true; true; true]).
  reflexivity.
Defined.

(** ** AdaptiveQuerySampler in the labeling loop *)

Lemma compress_count_true {A} (mask : list bool) (a : list A) :
  length mask = length a →
  length (compress mask a) = ActiveLearning.count_true mask.
Proof.
  revert a. induction mask as [|b mask IH]; intros [|x a] Hlen; simplify_eq/=;
    [done|].
  destruct b; simpl; by rewrite IH.
Qed.

Section AdaptiveQuerySampler_loop.
Context {E P : Type} `{!QuerySampler E} `{!QuerySampler P}.

(** X15. An [AdaptiveQuerySampler] in one turn of the labeling loop that
    raises nothing.  Both of its samplers are fitted on the labeled samples
    and their labels, and the size it records is the number of labeled
    samples.  While at most 50 samples are labeled, the indices that mark
    the newly labeled samples are the ones the fitted exploration sampler
    returns for the unlabeled samples, and the exploitation sampler is left
    as its fit made it; once more than 50 are labeled, the indices are the
    ones the fitted exploitation sampler returns, and the exploration
    sampler is left as its fit made it.  The recorded size is still the
    number of samples that were labeled when the turn began. *)
Theorem adaptive_explores_until_50_labeled
    X_train y_train (sampler sampler' : @AdaptiveQuerySampler.t E P)
    mask mask' :
  ActiveLearning.labeling_step X_train y_train sampler mask
  = (Ok mask', sampler') →
  ∃ explo exploit selected,
    fit (AdaptiveQuerySampler.exploration_sampler sampler)
      (compress mask X_train) (Some (compress mask y_train))
    = (Ok tt, explo) ∧
    fit (AdaptiveQuerySampler.exploitation_sampler sampler)
      (compress mask X_train) (Some (compress mask y_train))
    = (Ok tt, exploit) ∧
    ActiveLearning.mark_selected (arange (length X_train)) mask selected
    = Ok mask' ∧
    if decide (ActiveLearning.count_true mask ≤ 50)%nat then
      ∃ explo',
        select_samples explo (compress (map negb mask) X_train)
        = (Ok selected, explo') ∧
        sampler'
        = {| AdaptiveQuerySampler.exploration_sampler := explo';
             AdaptiveQuerySampler.exploitation_sampler := exploit;
             AdaptiveQuerySampler._X_train_size :=
               Some (Z.of_nat (ActiveLearning.count_true mask)) |}
    else
      ∃ exploit',
        select_samples exploit (compress (map negb mask) X_train)
        = (Ok selected, exploit') ∧
        sampler'
        = {| AdaptiveQuerySampler.exploration_sampler := explo;
             AdaptiveQuerySampler.exploitation_sampler := exploit';
             AdaptiveQuerySampler._X_train_size :=
               Some (Z.of_nat (ActiveLearning.count_true mask)) |}.
Proof.
  unfold ActiveLearning.labeling_step. intros Hstep.
  unfold bool_index in Hstep at 1.
  destruct (decide (length mask = length X_train)) as [Hlen|]; [|done].
  unfold bool_index in Hstep at 1.
  destruct (decide (length mask = length y_train)) as [Hleny|]; [|done].
  destruct (fit sampler (compress mask X_train)
              (Some (compress mask y_train)))
    as [[[]|e] fitted] eqn:Hfit; [|done].
  unfold bool_index in Hstep. rewrite length_map in Hstep.
  rewrite decide_True in Hstep by done.
  destruct (select_samples fitted (compress (map negb mask) X_train))
    as [[selected|e] s'] eqn:Hsel; [|done].
  injection Hstep as Hmark <-.
  simpl in Hfit. unfold AdaptiveQuerySampler.fit in Hfit.
  rewrite (compress_count_true mask X_train Hlen) in Hfit.
  destruct (fit (AdaptiveQuerySampler.exploration_sampler sampler) _ _)
    as [[[]|e] explo] eqn:Hexplo; [|done].
  destruct (fit (AdaptiveQuerySampler.exploitation_sampler sampler) _ _)
    as [r exploit] eqn:Hexploit.
  injection Hfit as -> <-.
  exists explo, exploit, selected. split_and!; [done|done|done|].
  simpl in Hsel. unfold AdaptiveQuerySampler.select_samples in Hsel.
  simpl in Hsel.
  destruct (decide (ActiveLearning.count_true mask ≤ 50)%nat) as [Hle|Hgt].
  - replace (Z.of_nat (ActiveLearning.count_true mask) <=? 50)%Z with true
      in Hsel by (symmetry; apply Z.leb_le; lia).
    destruct (select_samples explo _) as [r explo'].
    injection Hsel as -> <-. by exists explo'.
  - replace (Z.of_nat (ActiveLearning.count_true mask) <=? 50)%Z with false
      in Hsel by (symmetry; apply Z.leb_gt; lia).
    destruct (select_samples exploit _) as [r exploit'].
    injection Hsel as -> <-. by exists exploit'.
Qed.

End AdaptiveQuerySampler_loop.

Lemma adaptive_explores_until_50_labeled_witness :
  (∃ explo exploit selected,
     fit (AdaptiveQuerySampler.exploration_sampler adaptive_example)
       (compress mask3 X3) (Some (compress mask3 y3)) = (Ok tt, explo) ∧
     fit (AdaptiveQuerySampler.exploitation_sampler adaptive_example)
       (compress mask3 X3) (Some (compress mask3 y3)) = (Ok tt, exploit) ∧
     ActiveLearning.mark_selected (arange (length X3)) mask3 selected
     = Ok [true; true; false] ∧
     if decide (ActiveLearning.count_true mask3 ≤ 50)%nat then
       ∃ explo',
         select_samples explo (compress (map negb mask3) X3)
         = (Ok selected, explo') ∧
         {| AdaptiveQuerySampler.exploration_sampler :=
              {| FirstRowSampler.batch_size := 1 |};
            AdaptiveQuerySampler.exploitation_sampler :=
              {| RecordingSampler.fitted_rows := Some 1%nat |};
            AdaptiveQuerySampler._X_train_size := Some 1%Z |}
         = {| AdaptiveQuerySampler.exploration_sampler := explo';
              AdaptiveQuerySampler.exploitation_sampler := exploit;
              AdaptiveQuerySampler._X_train_size :=
                Some (Z.of_nat (ActiveLearning.count_true mask3)) |}
     else
       ∃ exploit',
         select_samples exploit (compress (map negb mask3) X3)
         = (Ok selected, exploit') ∧
         {| AdaptiveQuerySampler.exploration_sampler :=
              {| FirstRowSampler.batch_size := 1 |};
            AdaptiveQuerySampler.exploitation_sampler :=
              {| RecordingSampler.fitted_rows := Some 1%nat |};
            AdaptiveQuerySampler._X_train_size := Some 1%Z |}
         = {| AdaptiveQuerySampler.exploration_sampler := explo;
              AdaptiveQuerySampler.exploitation_sampler := exploit';
              AdaptiveQuerySampler._X_train_size :=
                Some (Z.of_nat (ActiveLearning.count_true mask3)) |}) ∧
  (∃ explo exploit selected,
     fit (AdaptiveQuerySampler.exploration_sampler adaptive_example)
       (compress mask52 X52) (Some (compress mask52 y52)) = (Ok tt, explo) ∧
     fit (AdaptiveQuerySampler.exploitation_sampler adaptive_example)
       (compress mask52 X52) (Some (compress mask52 y52))
     = (Ok tt, exploit) ∧
     ActiveLearning.mark_selected (arange (length X52)) mask52 selected
     = Ok (replicate 52 true) ∧
     if decide (ActiveLearning.count_true mask52 ≤ 50)%nat then
       ∃ explo',
         select_samples explo (compress (map negb mask52) X52)
         = (Ok selected, explo') ∧
         {| AdaptiveQuerySampler.exploration_sampler :=
              {| FirstRowSampler.batch_size := 1 |};
            AdaptiveQuerySampler.exploitation_sampler :=
              {| RecordingSampler.fitted_rows := Some 51%nat |};
            AdaptiveQuerySampler._X_train_size := Some 51%Z |}
         = {| AdaptiveQuerySampler.exploration_sampler := explo';
              AdaptiveQuerySampler.exploitation_sampler := exploit;
              AdaptiveQuerySampler._X_train_size :=
                Some (Z.of_nat (ActiveLearning.count_true mask52)) |}
     else
       ∃ exploit',
         select_samples exploit (compress (map negb mask52) X52)
         = (Ok selected, exploit') ∧
         {| AdaptiveQuerySampler.exploration_sampler :=
              {| FirstRowSampler.batch_size := 1 |};
            AdaptiveQuerySampler.exploitation_sampler :=
              {| RecordingSampler.fitted_rows := Some 51%nat |};
            AdaptiveQuerySampler._X_train_size := Some 51%Z |}
         = {| AdaptiveQuerySampler.exploration_sampler := explo;
              AdaptiveQuerySampler.exploitation_sampler := exploit';
              AdaptiveQuerySampler._X_train_size :=
                Some (Z.of_nat (ActiveLearning.count_true mask52)) |}).
Proof.
  split.
  - apply (adaptive_explores_until_50_labeled X3 y3 adaptive_example
             {| AdaptiveQuerySampler.exploration_sampler :=
                  {| FirstRowSampler.batch_size := 1 |};
                AdaptiveQuerySampler.exploitation_sampler :=
                  {| RecordingSampler.fitted_rows := Some 1%nat |};
                AdaptiveQuerySampler._X_train_size := Some 1%Z |}
             mask3 [true; true; false]).
    reflexivity.
  - apply (adaptive_explores_until_50_labeled X52 y52 adaptive_example
             {| AdaptiveQuerySampler.exploration_sampler :=
                  {| FirstRowSampler.batch_size := 1 |};
                AdaptiveQuerySampler.exploitation_sampler :=
                  {| RecordingSampler.fitted_rows := Some 51%nat |};
                AdaptiveQuerySampler._X_train_size := Some 51%Z |}
             mask52 (replicate 52 true)).
    vm_compute. reflexivity.
Defined.
